(** * run: coordinated start-up and graceful shutdown of a group of components

    A shallow embedding of [group.go] and of the options file of the Go
    package [run], together with the parts of Go's [errors] and [context]
    packages and of the [select] statement that [Group.Wait] and
    [Group.stop] rely on.

    Time is a logical clock: an instant is an integer (nanoseconds, like
    [time.Duration]).  An execution is determined by
      - the behaviour of each registered callable (how long it runs and what
        it returns, or that it never returns),
      - the instant at which the caller's context is done, if ever,
      - what the runtime decides in each phase: the number drawn by the
        [select], the order of the sends that workers perform at one
        instant, and the address of the composite error allocated.
    The straight-line code of [Wait] and [stop] takes no time: a [select] is
    evaluated at the instant its function was entered or resumed, and sees
    every channel closed at or before that instant as ready. *)

From Stdlib Require Import ZArith NArith List String Ascii Bool Arith Lia.
Import ListNotations.
Local Open Scope Z_scope.
Set Warnings "-register-all".

(* ------------------------------------------------------------------ *)
(** ** Package [errors] *)

Module Errors.

(** An error value.  [ErrorString] is [*errors.errorString] and
    [JoinError] is [*errors.joinError]: in both the pointer is the identity;
    the string is the message, the list is the wrapped errors.  Errors
    returned by callables of the caller are represented by these two shapes
    as well. *)
Inductive error : Type :=
| ErrorString (addr : nat) (s : string)
| JoinError (addr : nat) (errs : list error).

(** [errors.New]; the address stands for the fresh allocation. *)
Definition New (addr : nat) (text : string) : error := ErrorString addr text.

Definition newline : string := String (ascii_of_nat 10) EmptyString.

(** The [Error() string] method.  For a [joinError] the messages of the
    wrapped errors are separated by a newline; [Join] never builds an empty
    [joinError]. *)
Fixpoint Error (e : error) : string :=
  match e with
  | ErrorString _ s => s
  | JoinError _ errs => String.concat newline (map Error errs)
  end.

(** The non-nil entries of an argument list of interface values. *)
Fixpoint nonnil (errs : list (option error)) : list error :=
  match errs with
  | [] => []
  | Some e :: rest => e :: nonnil rest
  | None :: rest => nonnil rest
  end.

(** [errors.Join]: nil values are discarded; nil when nothing is left,
    and otherwise a composite allocated at [addr], which stands for the
    fresh allocation. *)
Definition Join (addr : nat) (errs : list (option error)) : option error :=
  match nonnil errs with
  | [] => None
  | es => Some (JoinError addr es)
  end.

(** [err == target] on interface values holding pointers: the same dynamic
    type and the same pointer. *)
Definition same (e target : error) : bool :=
  match e, target with
  | ErrorString a _, ErrorString b _ => Nat.eqb a b
  | JoinError a _, JoinError b _ => Nat.eqb a b
  | _, _ => false
  end.

(** The traversal of [errors.Is]: the error itself, then, for a
    [joinError], each wrapped error in order ([Unwrap() []error]). *)
Fixpoint is_ (e target : error) : bool :=
  same e target ||
  match e with
  | ErrorString _ _ => false
  | JoinError _ errs => existsb (fun x => is_ x target) errs
  end.

Definition Is (e target : option error) : bool :=
  match e, target with
  | Some e, Some t => is_ e t
  | None, None => true
  | _, _ => false
  end.

(** The constituent failures of an error value, left to right. *)
Fixpoint leaves (e : error) : list error :=
  match e with
  | ErrorString _ _ => [e]
  | JoinError _ errs => flat_map leaves errs
  end.

(** Every error value that the traversal of [errors.Is] visits: the error
    itself and, for a composite, what it visits in each wrapped error. *)
Fixpoint nodes (e : error) : list error :=
  e :: match e with
       | ErrorString _ _ => []
       | JoinError _ errs => flat_map nodes errs
       end.

(** Induction over error values, with the wrapped errors of a composite. *)
Section Induction.
Variable P : error -> Prop.
Hypothesis Hleaf : forall a s, P (ErrorString a s).
Hypothesis Hjoin : forall a errs, Forall P errs -> P (JoinError a errs).

Fixpoint error_rect' (e : error) : P e :=
  match e with
  | ErrorString a s => Hleaf a s
  | JoinError a errs =>
      Hjoin a errs
        ((fix all (l : list error) : Forall P l :=
            match l with
            | [] => Forall_nil P
            | x :: r => Forall_cons x (error_rect' x) (all r)
            end) errs)
  end.

End Induction.

End Errors.

(* ------------------------------------------------------------------ *)
(** ** Channels that are only ever closed, and [select] over them *)

Module Chan.

(** When a channel is closed, if ever: the instant, and a rank ordering the
    closes that one cancellation performs within an instant (a parent
    context closes its channel before it cancels its children). *)
Definition Stamp : Type := (Z * nat)%type.
Definition Chan : Type := option Stamp.

Definition stamp_ltb (a b : Stamp) : bool :=
  (fst a <? fst b) || ((fst a =? fst b) && Nat.ltb (snd a) (snd b)).

Definition stamp_eqb (a b : Stamp) : bool :=
  (fst a =? fst b) && Nat.eqb (snd a) (snd b).

(** The earlier of two closes. *)
Definition first (a b : Chan) : Chan :=
  match a, b with
  | Some x, Some y => if stamp_ltb y x then Some y else Some x
  | Some x, None => Some x
  | None, _ => b
  end.

Definition closed_at (t : option Z) : Chan :=
  option_map (fun i => (i, 0%nat)) t.

(** A receive from the channel can proceed at instant [now]. *)
Definition ready (now : Z) (c : Chan) : bool :=
  match c with
  | Some (t, _) => t <=? now
  | None => false
  end.

Definition closes_on (s : Stamp) (c : Chan) : bool :=
  match c with
  | Some x => stamp_eqb x s
  | None => false
  end.

Definition earliest (cs : list Chan) : Chan := fold_right first None cs.

(** The [rnd]-th element of a non-empty list, counting modulo its length. *)
Definition choose {A : Type} (rnd : nat) (x : A) (xs : list A) : A :=
  nth (rnd mod List.length (x :: xs)) (x :: xs) x.

(** [select] over receive cases, entered at instant [now].  If some cases can
    proceed, one of them is chosen pseudo-randomly.  Otherwise the statement
    blocks until the first close; [None] when no case ever can proceed.  The
    result is the chosen case and the instant at which execution resumes. *)
Definition select {A : Type} (now : Z) (cases : list (A * Chan)) (rnd : nat)
  : option (A * Z) :=
  match filter (fun c => ready now (snd c)) cases with
  | c :: cs => Some (fst (choose rnd c cs), now)
  | [] =>
      match earliest (map snd cases) with
      | None => None
      | Some s =>
          match filter (fun c => closes_on s (snd c)) cases with
          | c :: cs => Some (fst (choose rnd c cs), fst s)
          | [] => None
          end
      end
  end.

End Chan.

(* ------------------------------------------------------------------ *)
(** ** Package [context] *)

Module Ctx.
Import Chan.

(** A context is the chain of derivations that built it.  The [CancelFunc]
    of [WithCancel] is represented by the instant at which it is called, if
    ever.  [WithDeadline] records the deadline and the instant of creation;
    the cancel functions that [Wait] and [stop] defer run when these return,
    after every receive on the context, and are not represented. *)
Inductive Context : Type :=
| Background
| WithCancel (parent : Context) (cancelAt : option Z)
| WithDeadline (parent : Context) (d : Z) (created : Z).

(** [context.WithTimeout(parent, timeout)] called at instant [now]. *)
Definition WithTimeout (parent : Context) (now timeout : Z) : Context :=
  WithDeadline parent (now + timeout) now.

Definition propagated (c : Chan) : Chan :=
  option_map (fun s => (fst s, S (snd s))) c.

(** The close of [ctx.Done()]: by the context's own trigger, or by its
    parent right after the parent's own channel.  A deadline that has
    already passed cancels the context when it is created. *)
Fixpoint Done (ctx : Context) : Chan :=
  match ctx with
  | Background => None
  | WithCancel p c => first (closed_at c) (propagated (Done p))
  | WithDeadline p d created =>
      first (Some (Z.max d created, 0%nat)) (propagated (Done p))
  end.

(** The instant at which the context is done. *)
Definition doneAt (ctx : Context) : option Z := option_map fst (Done ctx).

End Ctx.

(* ------------------------------------------------------------------ *)
(** ** Package [run] *)

Module run.
Import Errors Chan Ctx.

(** *** Options *)

Definition Duration : Type := Z.
Definition Second : Duration := 1000000000.

(** [DefaultTimeout = 15 * time.Second]. *)
Definition DefaultTimeout : Duration := 15 * Second.

Record options : Type := {
  startTimeout : Duration;
  stopTimeout : Duration
}.

Definition defaultOptions : options :=
  {| startTimeout := DefaultTimeout; stopTimeout := DefaultTimeout |}.

(** An [Option] is its [apply] method; [*options] is passed and returned. *)
Definition Option : Type := options -> options.

Definition WithStartTimeout (v : Duration) : Option :=
  fun o => {| startTimeout := v; stopTimeout := stopTimeout o |}.

Definition WithStopTimeout (v : Duration) : Option :=
  fun o => {| startTimeout := startTimeout o; stopTimeout := v |}.

(** *** Sentinel errors *)

Definition ErrStartContextDeadlineExceeded : error :=
  New 0 "start context deadline exceeded".

Definition ErrStopContextDeadlineExceeded : error :=
  New 1 "stop context deadline exceeded".

(** *** Callables *)

(** What a call of a registered function does: it returns an error value
    (nil is [None]) after some time, or it never returns. *)
Inductive Behaviour : Type :=
| Returns (after : N) (err : option error)
| Hangs.

(** [type Start func() error], called at a given instant. *)
Definition Start : Type := Z -> Behaviour.

(** [type Stop func(ctx context.Context) error], called at a given instant. *)
Definition Stop : Type := Context -> Z -> Behaviour.

(** *** Group *)

(** The mutex [mu] only serialises [Add]; every function below is one
    atomic step of the model and the field is left out. *)
Record Group : Type := {
  opts : options;
  starters : list Start;
  stoppers : list Stop
}.

Definition NewGroup (options : list Option) : Group :=
  {| opts := fold_left (fun o opt => opt o) options defaultOptions;
     starters := [];
     stoppers := [] |}.

Definition Add (g : Group) (start : Start) (stop : Stop) : Group :=
  {| opts := opts g;
     starters := starters g ++ [start];
     stoppers := stoppers g ++ [stop] |}.

(** *** Workers, wait groups and failure channels *)

(** The instant at which [wg.Wait()] returns for workers launched at
    instant [now]: when the last of them has finished; never if one hangs. *)
Fixpoint allDone (now : Z) (bs : list Behaviour) : option Z :=
  match bs with
  | [] => Some now
  | Returns d _ :: rest => option_map (Z.max (now + Z.of_N d)) (allDone now rest)
  | Hangs :: _ => None
  end.

(** A buffered send, kept in the order of the sends.  A send carries its
    instant and a rank that orders the sends of one instant: it goes behind
    every earlier send, and behind the sends of its own instant and rank
    that are already there. *)
Fixpoint post (x : Stamp * error) (buf : list (Stamp * error))
  : list (Stamp * error) :=
  match buf with
  | [] => [x]
  | y :: rest =>
      if stamp_ltb (fst x) (fst y) then x :: y :: rest else y :: post x rest
  end.

(** The sends of the workers from the [i]-th on, in launch order, added to
    the buffer: a worker that returns a failure sends it at the instant at
    which it returns; [tie i] is the rank of the send of the [i]-th worker
    among the sends of that instant, since the goroutines race for the
    channel. *)
Fixpoint posts_from (i : nat) (now : Z) (tie : nat -> nat)
    (bs : list Behaviour) (buf : list (Stamp * error)) : list (Stamp * error) :=
  match bs with
  | [] => buf
  | b :: rest =>
      posts_from (S i) now tie rest
        match b with
        | Returns d (Some e) => post ((now + Z.of_N d, tie i), e) buf
        | _ => buf
        end
  end.

(** Everything the workers ever send on the failure channel, in the order of
    the sends.  The channel has room for one value per worker, so no send
    blocks. *)
Definition posts (now : Z) (tie : nat -> nat) (bs : list Behaviour)
  : list (Stamp * error) :=
  posts_from 0 now tie bs [].

(** What is in the channel's buffer at instant [t]. *)
Definition buffered (t : Z) (sent : list (Stamp * error)) : list error :=
  map snd (filter (fun x => fst (fst x) <=? t) sent).

(** *** Executions *)

Inductive Event : Type :=
| StopCalled (at_ : Z) (stopCtx : Context).

(** A computation records the calls of [stop] it makes and either yields a
    value or blocks for ever ([None]). *)
Definition M (A : Type) : Type := (list Event * option A)%type.

Definition ret {A : Type} (a : A) : M A := ([], Some a).

Definition bind {A B : Type} (m : M A) (k : A -> M B) : M B :=
  match m with
  | (l, None) => (l, None)
  | (l, Some a) => let (l', r) := k a in (l ++ l', r)
  end.

Definition emit (e : Event) : M unit := ([e], Some tt).

Definition lift {A : Type} (o : option A) : M A := ([], o).

Declare Scope run_scope.
Delimit Scope run_scope with run.
Notation "x <- c ;; k" := (bind c (fun x => k))
  (at level 61, c at next level, right associativity) : run_scope.
Notation "' p <- c ;; k" := (bind c (fun x => match x with p => k end))
  (at level 61, p pattern, c at next level, right associativity) : run_scope.
Notation "c ;;; k" := (bind c (fun _ => k))
  (at level 61, right associativity) : run_scope.
Local Open Scope run_scope.

(** A receive, entered at [now], from a channel closed at [c]: the instant
    at which it returns. *)
Definition recv (c : option Z) (now : Z) : M Z :=
  lift (option_map (Z.max now) c).

(** [for err := range ch], entered at [now], over a channel that is closed at
    [closed] after every send: all values in the order of the sends, once the
    channel is closed. *)
Definition range (sent : list (Stamp * error)) (closed : option Z) (now : Z)
  : M (Z * list error) :=
  t <- recv closed now ;; ret (t, map snd sent).

Inductive StopCase : Type := StopCtxDone | StopDone.

(** What the runtime decides during one phase: the number that the [select]
    draws, the ranks that order the sends of one instant on the failure
    channel, and the address at which [errors.Join] allocates. *)
Record Draw : Type := {
  pick : nat;
  tie : nat -> nat;
  join : nat
}.

(** [Group.stop], entered at instant [now].  The result is the instant of
    return and the error. *)
Definition stop (g : Group) (now : Z) (dr : Draw) : M (Z * option error) :=
  let stopCtx := WithTimeout Background now (stopTimeout (opts g)) in
  emit (StopCalled now stopCtx) ;;;
  let workers := map (fun a : Stop => a stopCtx now) (rev (stoppers g)) in
  let stopErrors := posts now (tie dr) workers in
  let done := allDone now workers in
  ' (c, t1) <- lift (select now [(StopCtxDone, Done stopCtx);
                                 (StopDone, closed_at done)] (pick dr)) ;;
  let errs := match c with
              | StopCtxDone => [ErrStopContextDeadlineExceeded]
              | StopDone => []
              end in
  ' (t2, more) <- range stopErrors done t1 ;;
  let errs := errs ++ more in
  if (List.length errs =? 0)%nat then ret (t2, None)
  else ret (t2, Join (join dr) (map Some errs)).

Inductive WaitCase : Type := CtxDone | StartCtxDone | AllDone.

(** What the runtime decides in one execution of [Wait]: in [Wait] itself
    and in the call of [stop]. *)
Record Sched : Type := {
  start_draw : Draw;
  stop_draw : Draw
}.

(** [Group.Wait], entered at instant [now]. *)
Definition Wait (g : Group) (ctx : Context) (now : Z) (s : Sched)
  : M (Z * option error) :=
  let startCtx := WithTimeout ctx now (startTimeout (opts g)) in
  let workers := map (fun a : Start => a now) (starters g) in
  let startErrors := posts now (tie (start_draw s)) workers in
  let done := allDone now workers in
  ' (c, t1) <- lift (select now [(CtxDone, Done ctx);
                                 (StartCtxDone, Done startCtx);
                                 (AllDone, closed_at done)]
                       (pick (start_draw s))) ;;
  match c with
  | CtxDone => stop g t1 (stop_draw s)
  | StartCtxDone =>
      ' (t2, err) <- stop g t1 (stop_draw s) ;;
      match err with
      | Some e => ret (t2, Join (join (start_draw s))
                             [Some ErrStartContextDeadlineExceeded; Some e])
      | None => ret (t2, Some ErrStartContextDeadlineExceeded)
      end
  | AllDone =>
      ' (t2, errs) <- range startErrors done t1 ;;
      if (0 <? List.length errs)%nat then
        ' (t3, stopErr) <- stop g t2 (stop_draw s) ;;
        let errs := match stopErr with
                    | Some e => errs ++ [e]
                    | None => errs
                    end in
        ret (t3, Join (join (start_draw s)) (map Some errs))
      else
        t3 <- recv (doneAt ctx) t2 ;;
        stop g t3 (stop_draw s)
  end.

(** *** Vocabulary of the races *)

(** The workers of the two phases, in launch order. *)
Definition start_workers (g : Group) (now : Z) : list Behaviour :=
  map (fun a : Start => a now) (starters g).

Definition stop_workers (g : Group) (now : Z) : list Behaviour :=
  map (fun a : Stop => a (WithTimeout Background now (stopTimeout (opts g))) now)
      (rev (stoppers g)).

(** The instants at which the deadlines of the two phases fire, for a phase
    entered at [now]. *)
Definition start_deadline (g : Group) (now : Z) : Z :=
  Z.max (now + startTimeout (opts g)) now.

Definition stop_deadline (g : Group) (now : Z) : Z :=
  Z.max (now + stopTimeout (opts g)) now.

(** Instant [t] is strictly before an event that may never happen. *)
Definition before (t : Z) (ev : option Z) : Prop :=
  match ev with
  | Some u => t < u
  | None => True
  end.

(** What [Wait] builds from the result of [stop] after a start timeout; a
    composite is allocated at [addr]. *)
Definition after_start_timeout (addr : nat) (stopErr : option error) : error :=
  match stopErr with
  | Some e => JoinError addr [ErrStartContextDeadlineExceeded; e]
  | None => ErrStartContextDeadlineExceeded
  end.

(** What [Wait] builds from collected start failures and the result of
    [stop]; the composite is allocated at [addr]. *)
Definition after_start_failures (addr : nat) (errs : list error)
    (stopErr : option error) : option error :=
  Join addr
    (map Some (errs ++ match stopErr with Some e => [e] | None => [] end)).

(** No finalizer of the group ever returns an error in which [target]
    can be found. *)
Definition stoppers_never_return (g : Group) (target : error) : Prop :=
  forall a c t d e,
    In a (stoppers g) -> a c t = Returns d (Some e) -> is_ e target = false.

(** The failures of the two phases in the order of their sends, and the
    record of a call of [stop]. *)
Definition start_failures (g : Group) (now : Z) (dr : Draw) : list error :=
  map snd (posts now (tie dr) (start_workers g now)).

Definition stop_failures (g : Group) (now : Z) (dr : Draw) : list error :=
  map snd (posts now (tie dr) (stop_workers g now)).

Definition stop_call (g : Group) (now : Z) : Event :=
  StopCalled now (WithTimeout Background now (stopTimeout (opts g))).

(** The race of [Wait]'s [select], named. *)
Definition start_race (g : Group) (ctx : Context) (now : Z) (rnd : nat)
  : option (WaitCase * Z) :=
  select now [(CtxDone, Done ctx);
              (StartCtxDone, Done (WithTimeout ctx now (startTimeout (opts g))));
              (AllDone, closed_at (allDone now (start_workers g now)))] rnd.

(** Observations of an execution. *)
Definition calls {A : Type} (m : M A) : list Event := fst m.
Definition result {A : Type} (m : M A) : option A := snd m.
Definition outcome (m : M (Z * option error)) : option (option error) :=
  option_map snd (result m).

End run.

(* ------------------------------------------------------------------ *)
(** ** Callables, contexts and groups of the examples *)

Module Scenarios.
Import Errors Ctx run.
Local Open Scope string_scope.

Definition Millisecond : Duration := 1000000.

(** Callables that return at once. *)
Definition ok_start : Start := fun _ => Returns 0 None.
Definition ok_stop : Stop := fun _ _ => Returns 0 None.
Definition fail_start (addr : nat) (msg : string) : Start :=
  fun _ => Returns 0 (Some (New addr msg)).
Definition fail_stop (addr : nat) (msg : string) : Stop :=
  fun _ _ => Returns 0 (Some (New addr msg)).

(** Callables that sleep first, or never return. *)
Definition slow_start (d : N) : Start := fun _ => Returns d None.
Definition slow_stop (d : N) : Stop := fun _ _ => Returns d None.
Definition late_fail_stop (d : N) (addr : nat) (msg : string) : Stop :=
  fun _ _ => Returns d (Some (New addr msg)).
Definition hang_start : Start := fun _ => Hangs.
Definition hang_stop : Stop := fun _ _ => Hangs.

(** A finalizer that honours its context in the plainest way: it returns
    success at the instant at which the context is done, and never if the
    context is never done. *)
Definition until_done_stop : Stop :=
  fun c t =>
    match doneAt c with
    | Some dl => Returns (Z.to_N (dl - t)) None
    | None => Hangs
    end.

(** A context whose cancel function is called at instant [t]. *)
Definition cancelled_at (t : Z) : Context := WithCancel Background (Some t).

(** Draws: the [select] draws [n], sends of one instant keep launch order,
    the composite is allocated at [addr]; [stop] allocates at 20 and [Wait]
    at 21. *)
Definition draw (n addr : nat) : Draw :=
  {| pick := n; tie := fun _ => 0%nat; join := addr |}.
Definition draws (a b : nat) : Sched :=
  {| start_draw := draw a 21; stop_draw := draw b 20 |}.

(** The groups of [example_test.go]; each test calls [Wait] at instant 0. *)
Definition basic : Group := Add (NewGroup []) ok_start ok_stop.
Definition startError : Group :=
  Add (NewGroup []) (fail_start 10 "start failed") ok_stop.
Definition startContextDeadlineExceeded : Group :=
  Add (NewGroup [WithStartTimeout (50 * Millisecond)]) (slow_start 100000000) ok_stop.
Definition stopError : Group :=
  Add (NewGroup []) (fail_start 10 "start failed") (fail_stop 11 "stop failed").
Definition stopContextDeadlineExceeded : Group :=
  Add (NewGroup [WithStopTimeout (50 * Millisecond)])
      (fail_start 10 "fail") (slow_stop 100000000).

(** The text that a test prints. *)
Definition printed (m : M (Z * option error)) : option (option string) :=
  option_map (option_map Error) (outcome m).

(** Groups on which claims of the specification are tried. *)
Definition empty : Group := NewGroup [].
Definition one_hanging_start : Group := Add (NewGroup []) hang_start ok_stop.
Definition late_failing_stop : Group :=
  Add (NewGroup [WithStopTimeout (50 * Millisecond)])
      ok_start (late_fail_stop 100000000 12 "late").
Definition hanging_stop : Group :=
  Add (NewGroup [WithStopTimeout (50 * Millisecond)]) ok_start hang_stop.
Definition slow_clean_stop : Group :=
  Add (NewGroup [WithStopTimeout (50 * Millisecond)]) ok_start (slow_stop 100000000).
Definition patient_stop : Group :=
  Add (NewGroup [WithStopTimeout (50 * Millisecond)]) ok_start until_done_stop.
Definition two_failing_stops : Group :=
  Add (Add (NewGroup []) ok_start (fail_stop 13 "first"))
      ok_start (fail_stop 14 "second").

(** A draw in which, among the sends of one instant, the worker launched
    later sends first. *)
Definition draw_later_first (n addr : nat) : Draw :=
  {| pick := n; tie := fun i => (1 - i)%nat; join := addr |}.

End Scenarios.

(* ------------------------------------------------------------------ *)
(** ** Chained registration and what the workers send *)

Module Derived.
Import Errors Ctx run.

(** Chained registration, [g.Add(s1, f1).Add(s2, f2)...]. *)
Definition AddAll (g : Group) (pairs : list (Start * Stop)) : Group :=
  fold_left (fun g p => Add g (fst p) (snd p)) pairs g.

(** An error value in which no composite is empty, at any depth: what
    [errors.New] and [errors.Join] build. *)
Fixpoint well_formed (e : error) : bool :=
  match e with
  | ErrorString _ _ => true
  | JoinError _ errs =>
      match errs with
      | [] => false
      | _ => forallb well_formed errs
      end
  end.

(** Every error that a callable of the group may return is well formed. *)
Definition callables_well_formed (g : Group) : Prop :=
  (forall a t d e, In a (starters g) -> a t = Returns d (Some e) ->
                   well_formed e = true) /\
  (forall a c t d e, In a (stoppers g) -> a c t = Returns d (Some e) ->
                     well_formed e = true).

(** A schedule with another number drawn by the [select] of [Wait]. *)
Definition with_pick (rnd : nat) (s : Sched) : Sched :=
  {| start_draw := {| pick := rnd;
                      tie := tie (start_draw s);
                      join := join (start_draw s) |};
     stop_draw := stop_draw s |}.

(** No finalizer of the group ever hangs. *)
Definition stoppers_return (g : Group) : Prop :=
  forall a c t, In a (stoppers g) -> a c t <> Hangs.


(** A finalizer uses all the time that its context gives it: it returns
    no earlier than the instant at which the context is done. *)
Definition runs_until_done (a : Stop) : Prop :=
  forall c t dl, doneAt c = Some dl ->
    exists d e, a c t = Returns d e /\ Z.max t dl <= t + Z.of_N d.

End Derived.

(* ------------------------------------------------------------------ *)
(** ** Facts about error values *)

Module ErrorFacts.
Import Errors.

Lemma nonnil_Some (es : list error) : nonnil (map Some es) = es.
Proof. induction es as [|e es IH]; simpl; congruence. Qed.

Lemma nonnil_app (xs ys : list (option error)) :
  nonnil (xs ++ ys) = nonnil xs ++ nonnil ys.
Proof.
  induction xs as [|[x|] xs IH]; simpl; try rewrite IH; reflexivity.
Qed.

Lemma Join_Some_cons (addr : nat) (e : error) (es : list error) :
  Join addr (map Some (e :: es)) = Some (JoinError addr (e :: es)).
Proof. unfold Join. rewrite nonnil_Some. reflexivity. Qed.

Lemma Join_Some (addr : nat) (es : list error) :
  Join addr (map Some es)
  = match es with [] => None | _ => Some (JoinError addr es) end.
Proof. unfold Join. rewrite nonnil_Some. destruct es; reflexivity. Qed.

Lemma is_JoinError (addr : nat) (errs : list error) (target : error) :
  is_ (JoinError addr errs) target
  = same (JoinError addr errs) target || existsb (fun x => is_ x target) errs.
Proof. reflexivity. Qed.

(** A composite against an [errorString] target: only the wrapped errors
    count. *)
Lemma is_JoinError_leaf (addr : nat) (errs : list error) (a : nat) (m : string) :
  is_ (JoinError addr errs) (ErrorString a m)
  = existsb (fun x => is_ x (ErrorString a m)) errs.
Proof. reflexivity. Qed.

Lemma same_refl (e : error) : same e e = true.
Proof. destruct e; simpl; apply Nat.eqb_refl. Qed.

Lemma is_refl (e : error) : is_ e e = true.
Proof. destruct e; simpl; rewrite Nat.eqb_refl; reflexivity. Qed.

(** What [errors.Is] finds in a wrapped error it finds in the composite. *)
Lemma is_wrapped (addr : nat) (errs : list error) (x target : error) :
  In x errs -> is_ x target = true -> is_ (JoinError addr errs) target = true.
Proof.
  intros Hin Hx. rewrite is_JoinError. apply orb_true_iff. right.
  apply existsb_exists. exists x. auto.
Qed.

Lemma existsb_flat_map {A B : Type} (p : B -> bool) (f : A -> list B) (l : list A) :
  existsb p (flat_map f l) = existsb (fun x => existsb p (f x)) l.
Proof.
  induction l as [|x l IH]; simpl; [reflexivity|].
  rewrite existsb_app, IH. reflexivity.
Qed.

(** [errors.Is] finds exactly the values that its traversal visits. *)
Lemma is_nodes (e target : error) :
  is_ e target = existsb (fun n => same n target) (nodes e).
Proof.
  induction e as [a s|a errs IH] using error_rect'.
  - simpl. rewrite !orb_false_r. reflexivity.
  - rewrite is_JoinError. cbn [nodes existsb]. f_equal.
    rewrite existsb_flat_map.
    induction IH as [|x r Hx _ IHr]; simpl; [reflexivity|].
    rewrite Hx, IHr. reflexivity.
Qed.

(** Against an [errorString] target, [errors.Is] finds exactly the
    constituent failures. *)
Lemma is_leaves (e : error) (a : nat) (m : string) :
  is_ e (ErrorString a m)
  = existsb (fun l => same l (ErrorString a m)) (leaves e).
Proof.
  induction e as [b s|b errs IH] using error_rect'.
  - simpl. rewrite !orb_false_r. reflexivity.
  - rewrite is_JoinError_leaf. cbn [leaves]. rewrite existsb_flat_map.
    induction IH as [|x r Hx _ IHr]; simpl; [reflexivity|].
    rewrite Hx, IHr. reflexivity.
Qed.

End ErrorFacts.

(* ------------------------------------------------------------------ *)
(** ** Facts about [select] and contexts *)

Module SelectFacts.
Import Chan Ctx.

Lemma choose_single {A : Type} (rnd : nat) (x : A) : choose rnd x [] = x.
Proof.
  unfold choose. simpl List.length.
  rewrite Nat.mod_1_r. reflexivity.
Qed.

Lemma choose_In {A : Type} (rnd : nat) (x : A) (xs : list A) :
  In (choose rnd x xs) (x :: xs).
Proof.
  unfold choose. apply nth_In.
  apply Nat.mod_upper_bound. discriminate.
Qed.

(** One case is ready at entry: it is taken, whatever number is drawn. *)
Lemma select_one_ready {A : Type} (now : Z) (cases : list (A * Chan)) rnd c :
  filter (fun x => ready now (snd x)) cases = [c] ->
  select now cases rnd = Some (fst c, now).
Proof.
  intros H. unfold select. rewrite H, choose_single. reflexivity.
Qed.

(** No case is ready at entry and one channel is closed first. *)
Lemma select_one_first {A : Type} (now : Z) (cases : list (A * Chan)) rnd s c :
  filter (fun x => ready now (snd x)) cases = [] ->
  earliest (map snd cases) = Some s ->
  filter (fun x => closes_on s (snd x)) cases = [c] ->
  select now cases rnd = Some (fst c, fst s).
Proof.
  intros H0 H1 H2. unfold select. rewrite H0, H1, H2, choose_single.
  reflexivity.
Qed.

(** Whatever is selected was a case of the statement. *)
Lemma select_case {A : Type} (now : Z) (cases : list (A * Chan)) rnd a t :
  select now cases rnd = Some (a, t) -> In a (map fst cases).
Proof.
  unfold select.
  destruct (filter _ cases) as [|c cs] eqn:Hr.
  - destruct (earliest _) as [s|]; [|discriminate].
    destruct (filter (fun c => closes_on s (snd c)) cases) as [|c cs] eqn:Hf;
      [discriminate|].
    intros [= <- _]. apply in_map.
    pose proof (choose_In rnd c cs) as Hin. rewrite <- Hf in Hin.
    apply filter_In in Hin. tauto.
  - intros [= <- _]. apply in_map.
    pose proof (choose_In rnd c cs) as Hin. rewrite <- Hr in Hin.
    apply filter_In in Hin. tauto.
Qed.

Lemma ready_Done (ctx : Context) (now : Z) :
  ready now (Done ctx) =
  match doneAt ctx with Some c => c <=? now | None => false end.
Proof.
  unfold doneAt. destruct (Done ctx) as [[c k]|]; reflexivity.
Qed.

(** A context derived with a timeout is done at its deadline or when its
    parent is done, whichever comes first. *)
Lemma doneAt_WithTimeout (parent : Context) (now timeout : Z) :
  doneAt (WithTimeout parent now timeout) =
  match doneAt parent with
  | Some c => Some (Z.min c (Z.max (now + timeout) now))
  | None => Some (Z.max (now + timeout) now)
  end.
Proof.
  unfold doneAt, WithTimeout. simpl.
  destruct (Done parent) as [[c k]|]; simpl; [|reflexivity].
  unfold stamp_ltb. simpl.
  destruct (Z.ltb_spec c (Z.max (now + timeout) now)); simpl.
  - f_equal. lia.
  - rewrite andb_false_r. simpl. f_equal. lia.
Qed.

Lemma doneAt_Background_timeout (now timeout : Z) :
  doneAt (WithTimeout Background now timeout) = Some (Z.max (now + timeout) now).
Proof. reflexivity. Qed.

End SelectFacts.

(* ------------------------------------------------------------------ *)
(** ** Facts about workers and the stop phase *)

Module StopFacts.
Import Errors Chan Ctx run ErrorFacts SelectFacts.
Local Open Scope run_scope.

(** Registration keeps the pairing: as many finalizers as initializers. *)
Lemma NewGroup_paired (options : list Option) :
  List.length (starters (NewGroup options)) = List.length (stoppers (NewGroup options)).
Proof. reflexivity. Qed.

Lemma Add_paired (g : Group) (start : Start) (stop : Stop) :
  List.length (starters g) = List.length (stoppers g) ->
  List.length (starters (Add g start stop)) = List.length (stoppers (Add g start stop)).
Proof. intros H. simpl. rewrite !length_app, H. reflexivity. Qed.

(** Decide the integer comparisons of a goal, one after the other. *)
Ltac cmp :=
  repeat (match goal with
          | |- context [Z.leb ?a ?b] => destruct (Z.leb_spec a b); try lia
          | |- context [Z.ltb ?a ?b] => destruct (Z.ltb_spec a b); try lia
          | |- context [Z.eqb ?a ?b] => destruct (Z.eqb_spec a b); try lia
          end; simpl).

Lemma allDone_ge (now : Z) (bs : list Behaviour) (d : Z) :
  allDone now bs = Some d -> now <= d.
Proof.
  revert d. induction bs as [|[n e|] bs IH]; simpl; intros d H.
  - injection H as <-. lia.
  - destruct (allDone now bs) as [d'|]; simpl in H; [|discriminate].
    injection H as <-. specialize (IH _ eq_refl). lia.
  - discriminate.
Qed.

Lemma allDone_returns (now : Z) (bs : list Behaviour) :
  (forall b, In b bs -> b <> Hangs) -> exists d, allDone now bs = Some d.
Proof.
  induction bs as [|[n e|] bs IH]; simpl; intros H.
  - eauto.
  - destruct IH as [d ->]; [intros b Hb; apply H; auto|]. simpl. eauto.
  - exfalso. apply (H Hangs); auto.
Qed.

Lemma In_post (x y : Stamp * error) (buf : list (Stamp * error)) :
  In x (post y buf) <-> x = y \/ In x buf.
Proof.
  induction buf as [|z buf IH]; simpl.
  - intuition congruence.
  - destruct (stamp_ltb (fst y) (fst z)); simpl; rewrite ?IH;
      intuition congruence.
Qed.

Lemma posts_from_aux (i : nat) (now : Z) (tie : nat -> nat)
    (bs : list Behaviour) (buf : list (Stamp * error)) x :
  In x (posts_from i now tie bs buf) ->
  In x buf \/ exists d, In (Returns d (Some (snd x))) bs.
Proof.
  revert i buf. induction bs as [|b bs IH]; simpl; intros i buf H; [auto|].
  apply IH in H. destruct H as [H|[d H]]; [|eauto].
  destruct b as [d [e|]|]; auto.
  apply In_post in H. destruct H as [->|H]; simpl; eauto.
Qed.

(** Every value in a failure channel was returned by one of the workers. *)
Lemma posts_from_workers (now : Z) (tie : nat -> nat) (bs : list Behaviour)
    (x : Stamp * error) :
  In x (posts now tie bs) -> exists d, In (Returns d (Some (snd x))) bs.
Proof.
  intros H. apply posts_from_aux in H. destruct H as [[]|H]. exact H.
Qed.

(** Workers that all succeed send nothing. *)
Lemma posts_nil (now : Z) (tie : nat -> nat) (bs : list Behaviour) :
  (forall d e, ~ In (Returns d (Some e)) bs) -> posts now tie bs = [].
Proof.
  intros H. destruct (posts now tie bs) as [|x l] eqn:E; [reflexivity|].
  destruct (posts_from_workers now tie bs x) as [d Hd];
    [rewrite E; left; reflexivity|].
  elim (H _ _ Hd).
Qed.

Lemma posts_from_keeps (i : nat) (now : Z) (tie : nat -> nat)
    (bs : list Behaviour) (buf : list (Stamp * error)) x :
  In x buf -> In x (posts_from i now tie bs buf).
Proof.
  revert i buf. induction bs as [|b bs IH]; simpl; intros i buf H; [exact H|].
  apply IH. destruct b as [d [e|]|]; auto.
  apply In_post. right. exact H.
Qed.

Lemma posts_from_complete (i : nat) (now : Z) (tie : nat -> nat)
    (bs : list Behaviour) (buf : list (Stamp * error)) d e :
  In (Returns d (Some e)) bs ->
  In e (map snd (posts_from i now tie bs buf)).
Proof.
  revert i buf. induction bs as [|b bs IH]; simpl; intros i buf H; [destruct H|].
  destruct H as [->|H]; [|apply IH; exact H].
  apply in_map_iff. exists ((now + Z.of_N d, tie i), e).
  split; [reflexivity|]. apply posts_from_keeps. apply In_post. left. reflexivity.
Qed.

(** Every failure that a worker returns is in the channel. *)
Lemma posts_complete (now : Z) (tie : nat -> nat) (bs : list Behaviour) d e :
  In (Returns d (Some e)) bs -> In e (map snd (posts now tie bs)).
Proof. apply posts_from_complete. Qed.

(** [stop] when every finalizer has returned strictly before the stop
    deadline: it returns when the last one has, with the failures alone. *)
Lemma stop_done_first (g : Group) (now : Z) (dr : Draw) (d : Z) :
  allDone now (stop_workers g now) = Some d ->
  d < stop_deadline g now ->
  stop g now dr
  = ([stop_call g now],
     Some (d, Join (join dr) (map Some (stop_failures g now dr)))).
Proof.
  intros Hd Hlt. pose proof (allDone_ge _ _ _ Hd) as Hge.
  unfold stop, stop_failures, stop_call. fold (stop_workers g now). rewrite Hd.
  unfold stop_deadline in Hlt.
  assert (Hsel : select now
            [(StopCtxDone, Done (WithTimeout Background now (stopTimeout (opts g))));
             (StopDone, closed_at (Some d))] (pick dr) = Some (StopDone, d)).
  { destruct (Z.eq_dec d now) as [->|Hne].
    - apply (select_one_ready now _ (pick dr) (StopDone, closed_at (Some now))).
      simpl. cmp. reflexivity.
    - apply (select_one_first now _ (pick dr) (d, 0%nat)
               (StopDone, closed_at (Some d))).
      + simpl. cmp. reflexivity.
      + simpl. unfold stamp_ltb. simpl. cmp. reflexivity.
      + simpl. unfold stamp_eqb. simpl. cmp. reflexivity. }
  rewrite Hsel. simpl. rewrite Z.max_id.
  destruct (map snd (posts now (tie dr) (stop_workers g now))) as [|e es] eqn:E.
  - reflexivity.
  - simpl. reflexivity.
Qed.

(** [stop] when its deadline fires strictly before the last finalizer has
    returned: the marker comes first, but [stop] still returns only when the
    last finalizer has returned, with every failure. *)
Lemma stop_deadline_first (g : Group) (now : Z) (dr : Draw) (d : Z) :
  allDone now (stop_workers g now) = Some d ->
  stop_deadline g now < d ->
  stop g now dr =
  ([stop_call g now],
   Some (d, Some (JoinError (join dr)
                    (ErrStopContextDeadlineExceeded :: stop_failures g now dr)))).
Proof.
  intros Hd Hlt.
  unfold stop, stop_failures, stop_call. fold (stop_workers g now). rewrite Hd.
  unfold stop_deadline in Hlt.
  set (sd := Z.max (now + stopTimeout (opts g)) now) in *.
  assert (Hsel : select now
            [(StopCtxDone, Done (WithTimeout Background now (stopTimeout (opts g))));
             (StopDone, closed_at (Some d))] (pick dr) = Some (StopCtxDone, sd)).
  { destruct (Z.eq_dec sd now) as [He|Hne].
    - rewrite He.
      apply (select_one_ready now _ (pick dr) (StopCtxDone, Some (sd, 0%nat))).
      simpl. fold sd. cmp. reflexivity.
    - apply (select_one_first now _ (pick dr) (sd, 0%nat)
               (StopCtxDone, Some (sd, 0%nat))).
      + simpl. fold sd. cmp. reflexivity.
      + simpl. fold sd. unfold stamp_ltb. simpl. cmp. reflexivity.
      + simpl. fold sd. unfold stamp_eqb. simpl. cmp. reflexivity. }
  rewrite Hsel. simpl.
  replace (Z.max sd d) with d by lia.
  unfold Join. simpl. rewrite nonnil_Some. reflexivity.
Qed.

(** [stop] never returns while a finalizer hangs, deadline or not. *)
Lemma stop_hangs (g : Group) (now : Z) (dr : Draw) :
  allDone now (stop_workers g now) = None ->
  stop g now dr = ([stop_call g now], None).
Proof.
  intros Hd.
  unfold stop, stop_call. fold (stop_workers g now). rewrite Hd.
  set (sd := Z.max (now + stopTimeout (opts g)) now).
  assert (Hsel : select now
            [(StopCtxDone, Done (WithTimeout Background now (stopTimeout (opts g))));
             (StopDone, closed_at None)] (pick dr) = Some (StopCtxDone, sd)).
  { destruct (Z.eq_dec sd now) as [He|Hne].
    - rewrite He.
      apply (select_one_ready now _ (pick dr) (StopCtxDone, Some (sd, 0%nat))).
      simpl. fold sd. cmp. reflexivity.
    - apply (select_one_first now _ (pick dr) (sd, 0%nat)
               (StopCtxDone, Some (sd, 0%nat))).
      + simpl. fold sd. cmp. reflexivity.
      + reflexivity.
      + simpl. fold sd. unfold stamp_eqb. simpl. cmp. reflexivity. }
  rewrite Hsel. reflexivity.
Qed.

End StopFacts.

(* ------------------------------------------------------------------ *)
(** ** The start race *)

Module RaceFacts.
Import Errors Chan Ctx run ErrorFacts SelectFacts StopFacts.
Local Open Scope run_scope.

(** Decide the comparisons, on integers and on ranks, of a goal. *)
Ltac cmp' :=
  repeat (match goal with
          | |- context [Z.leb ?a ?b] => destruct (Z.leb_spec a b); try lia
          | |- context [Z.ltb ?a ?b] => destruct (Z.ltb_spec a b); try lia
          | |- context [Z.eqb ?a ?b] => destruct (Z.eqb_spec a b); try lia
          | |- context [Nat.ltb ?a ?b] => destruct (Nat.ltb_spec a b); try lia
          | |- context [Nat.eqb ?a ?b] => destruct (Nat.eqb_spec a b); try lia
          end; cbn [filter map fold_right fst snd andb orb]).

Ltac race :=
  unfold select, earliest, first, propagated, closed_at, closes_on, ready,
    stamp_ltb, stamp_eqb, option_map;
  cbn [filter map fold_right fst snd andb orb]; cmp';
  rewrite ?choose_single; cbn [fst snd]; try reflexivity.

(** The external signal fires while [Wait] is blocked in its [select],
    strictly before the start deadline and before the last initializer has
    returned: the first case is taken, since the channel of [ctx] is closed
    before [ctx] cancels the derived [startCtx]. *)
Lemma race_ctx_first (ctx : Context) (now st : Z) (done : option Z) rnd c :
  doneAt ctx = Some c -> now < c -> c < Z.max (now + st) now -> before c done ->
  select now [(CtxDone, Done ctx);
              (StartCtxDone, Done (WithTimeout ctx now st));
              (AllDone, closed_at done)] rnd = Some (CtxDone, c).
Proof.
  unfold doneAt. intros Hc Hnow Hdl Hdone.
  destruct (Done ctx) as [[c' k]|] eqn:E; simpl in Hc; [|discriminate].
  injection Hc as ->. simpl Done. rewrite E.
  destruct done as [d|]; simpl in Hdone; race.
Qed.

(** The start deadline fires strictly before the external signal and before
    the last initializer has returned. *)
Lemma race_deadline_first (ctx : Context) (now st : Z) (done : option Z) rnd :
  before (Z.max (now + st) now) (doneAt ctx) ->
  before (Z.max (now + st) now) done ->
  select now [(CtxDone, Done ctx);
              (StartCtxDone, Done (WithTimeout ctx now st));
              (AllDone, closed_at done)] rnd
  = Some (StartCtxDone, Z.max (now + st) now).
Proof.
  unfold doneAt. intros Hc Hdone. simpl Done.
  set (dl := Z.max (now + st) now) in *.
  assert (now <= dl) by lia.
  destruct (Done ctx) as [[c k]|]; simpl in Hc;
    destruct done as [d|]; simpl in Hdone;
    destruct (Z.eq_dec dl now) as [He|Hne]; race; f_equal; f_equal; lia.
Qed.

(** The last initializer returns strictly before the external signal and
    before the start deadline. *)
Lemma race_done_first (ctx : Context) (now st : Z) rnd d :
  now <= d -> before d (doneAt ctx) -> d < Z.max (now + st) now ->
  select now [(CtxDone, Done ctx);
              (StartCtxDone, Done (WithTimeout ctx now st));
              (AllDone, closed_at (Some d))] rnd = Some (AllDone, d).
Proof.
  unfold doneAt. intros Hge Hc Hdl. simpl Done.
  set (dl := Z.max (now + st) now) in *.
  destruct (Done ctx) as [[c k]|]; simpl in Hc;
    destruct (Z.eq_dec d now) as [He|Hne]; race; f_equal; f_equal; lia.
Qed.

End RaceFacts.

(* ------------------------------------------------------------------ *)
(** ** Shape of the result of [stop] *)

Module StopShape.
Import Errors Chan Ctx run ErrorFacts SelectFacts StopFacts.
Local Open Scope run_scope.

(** [stop] records exactly one call, whether it returns or not. *)
Lemma stop_calls (g : Group) (now : Z) (dr : Draw) :
  calls (stop g now dr) = [stop_call g now].
Proof.
  unfold stop, stop_call, calls, range, recv, lift.
  destruct (select now _ (pick dr)) as [[c t1]|]; [|reflexivity].
  destruct (allDone now _) as [d|]; [|reflexivity].
  cbn [bind emit ret option_map fst snd app].
  destruct (List.length _ =? 0)%nat; reflexivity.
Qed.

(** The error of [stop] is the join of at most the stop-timeout marker and
    of every failure of the finalizers, and [stop] returns only once every
    finalizer has. *)
Lemma stop_shape (g : Group) (now : Z) (dr : Draw) t o :
  result (stop g now dr) = Some (t, o) ->
  allDone now (stop_workers g now) <> None /\
  exists pre,
    (pre = [] \/ pre = [ErrStopContextDeadlineExceeded]) /\
    o = Join (join dr) (map Some (pre ++ stop_failures g now dr)).
Proof.
  unfold stop, result, range, recv, lift, stop_failures.
  fold (stop_workers g now).
  destruct (select now _ (pick dr)) as [[c t1]|]; [|discriminate].
  destruct (allDone now (stop_workers g now)) as [d|]; [|discriminate].
  cbn [bind emit ret option_map fst snd app].
  intros H. split; [discriminate|].
  exists (match c with StopCtxDone => [ErrStopContextDeadlineExceeded] | StopDone => [] end).
  split; [destruct c; auto|].
  destruct (List.length _ =? 0)%nat eqn:El; cbn in H; injection H as _ <-;
    [|reflexivity].
  apply Nat.eqb_eq in El. apply length_zero_iff_nil in El. rewrite El.
  reflexivity.
Qed.

Lemma stop_failures_from (g : Group) (now : Z) (dr : Draw) (e : error) :
  In e (stop_failures g now dr) ->
  exists a d, In a (stoppers g) /\
    a (WithTimeout Background now (stopTimeout (opts g))) now = Returns d (Some e).
Proof.
  unfold stop_failures, stop_workers. intros H.
  apply in_map_iff in H. destruct H as [[t e'] [<- H]].
  apply posts_from_workers in H. destruct H as [d H]. simpl in H.
  apply in_map_iff in H. destruct H as [a [Ha Hin]].
  exists a, d. split; [apply in_rev; exact Hin | exact Ha].
Qed.

(** An error that no finalizer returns, and that is neither the
    stop-timeout marker nor the composite that [stop] allocates, is not found
    in the result of [stop]. *)
Lemma stop_never_yields (g : Group) (target : error) (now : Z) (dr : Draw) t o :
  stoppers_never_return g target ->
  same ErrStopContextDeadlineExceeded target = false ->
  same (JoinError (join dr) []) target = false ->
  result (stop g now dr) = Some (t, o) ->
  Is o (Some target) = false.
Proof.
  intros Hclean Hne Hj H. apply stop_shape in H.
  destruct H as [_ [pre [Hpre ->]]].
  rewrite Join_Some.
  destruct (pre ++ stop_failures g now dr) as [|x l] eqn:E; [reflexivity|].
  rewrite <- E. cbn [Is]. rewrite is_JoinError, existsb_app.
  apply orb_false_iff. split; [exact Hj|].
  apply orb_false_iff. split.
  - destruct Hpre as [-> | ->]; [reflexivity|].
    cbn [existsb]. rewrite orb_false_r.
    change (is_ ErrStopContextDeadlineExceeded target)
      with (same ErrStopContextDeadlineExceeded target || false).
    rewrite Hne. reflexivity.
  - destruct (existsb _ (stop_failures g now dr)) eqn:Ex; [|reflexivity].
    apply existsb_exists in Ex. destruct Ex as [e [Hin He]].
    apply stop_failures_from in Hin. destruct Hin as [a [d [Ha Hr]]].
    rewrite (Hclean _ _ _ _ _ Ha Hr) in He. discriminate.
Qed.

(** [stop] reads the stop timeout and the finalizers, nothing else. *)
Lemma stop_ext (g g' : Group) (now : Z) (dr : Draw) :
  stopTimeout (opts g) = stopTimeout (opts g') ->
  stoppers g = stoppers g' ->
  stop g now dr = stop g' now dr.
Proof. unfold stop. intros -> ->. reflexivity. Qed.

End StopShape.

(* ------------------------------------------------------------------ *)
(** ** Laws of the execution monad and the cases of [Wait] *)

Module WaitFacts.
Import Errors Chan Ctx run ErrorFacts SelectFacts StopFacts StopShape RaceFacts.
Local Open Scope run_scope.

Lemma bind_ret_l {A B : Type} (a : A) (k : A -> M B) : bind (ret a) k = k a.
Proof. unfold bind, ret. destruct (k a). reflexivity. Qed.

Lemma bind_lift_Some {A B : Type} (a : A) (k : A -> M B) :
  bind (lift (Some a)) k = k a.
Proof. apply bind_ret_l. Qed.

Lemma bind_lift_None {A B : Type} (k : A -> M B) : bind (lift None) k = ([], None).
Proof. reflexivity. Qed.


Lemma bind_ext {A B : Type} (m : M A) (k k' : A -> M B) :
  (forall a, k a = k' a) -> bind m k = bind m k'.
Proof. intros H. destruct m as [l [a|]]; simpl; [rewrite H|]; reflexivity. Qed.

Lemma calls_bind {A B : Type} (m : M A) (k : A -> M B) :
  calls (bind m k) =
  calls m ++ match result m with Some a => calls (k a) | None => [] end.
Proof.
  destruct m as [l [a|]]; unfold bind, calls, result; simpl.
  - destruct (k a). reflexivity.
  - rewrite app_nil_r. reflexivity.
Qed.

Lemma result_bind {A B : Type} (m : M A) (k : A -> M B) :
  result (bind m k) =
  match result m with Some a => result (k a) | None => None end.
Proof.
  destruct m as [l [a|]]; unfold bind, result; simpl; [|reflexivity].
  destruct (k a). reflexivity.
Qed.

Lemma Wait_CtxDone (g : Group) (ctx : Context) (now : Z) (s : Sched) t1 :
  start_race g ctx now (pick (start_draw s)) = Some (CtxDone, t1) ->
  Wait g ctx now s = stop g t1 (stop_draw s).
Proof.
  unfold start_race, start_workers, Wait. intros ->.
  rewrite bind_lift_Some. reflexivity.
Qed.

Lemma Wait_StartCtxDone (g : Group) (ctx : Context) (now : Z) (s : Sched) t1 :
  start_race g ctx now (pick (start_draw s)) = Some (StartCtxDone, t1) ->
  Wait g ctx now s =
  (' (t2, err) <- stop g t1 (stop_draw s) ;;
   ret (t2, Some (after_start_timeout (join (start_draw s)) err))).
Proof.
  unfold start_race, start_workers, Wait. intros ->.
  rewrite bind_lift_Some. apply bind_ext. intros [t2 [e|]]; reflexivity.
Qed.

Lemma Wait_AllDone_failed (g : Group) (ctx : Context) (now : Z) (s : Sched) t1 d :
  start_race g ctx now (pick (start_draw s)) = Some (AllDone, t1) ->
  allDone now (start_workers g now) = Some d -> d <= t1 ->
  start_failures g now (start_draw s) <> [] ->
  Wait g ctx now s =
  (' (t3, stopErr) <- stop g t1 (stop_draw s) ;;
   ret (t3, after_start_failures (join (start_draw s)) (start_failures g now (start_draw s)) stopErr)).
Proof.
  unfold start_race, start_failures, Wait. fold (start_workers g now).
  intros -> Ed Hle Hf. rewrite bind_lift_Some, Ed.
  unfold range, recv. cbn [option_map].
  replace (Z.max t1 d) with t1 by lia.
  rewrite bind_lift_Some, bind_ret_l.
  destruct (map snd (posts now (tie (start_draw s)) (start_workers g now))) as [|e es] eqn:E;
    [congruence|].
  cbn [List.length Nat.ltb Nat.leb].
  apply bind_ext. intros [t3 [x|]]; unfold after_start_failures.
  - reflexivity.
  - rewrite app_nil_r. reflexivity.
Qed.

Lemma Wait_AllDone_clean (g : Group) (ctx : Context) (now : Z) (s : Sched) t1 d :
  start_race g ctx now (pick (start_draw s)) = Some (AllDone, t1) ->
  allDone now (start_workers g now) = Some d -> d <= t1 ->
  start_failures g now (start_draw s) = [] ->
  Wait g ctx now s =
  (t3 <- recv (doneAt ctx) t1 ;; stop g t3 (stop_draw s)).
Proof.
  unfold start_race, start_failures, Wait. fold (start_workers g now).
  intros -> Ed Hle Hf. rewrite bind_lift_Some, Ed.
  unfold range. rewrite Hf. unfold recv at 1. cbn [option_map].
  replace (Z.max t1 d) with t1 by lia.
  rewrite bind_lift_Some, bind_ret_l. reflexivity.
Qed.

End WaitFacts.

(* ------------------------------------------------------------------ *)
(** ** The examples of [example_test.go] *)

Module ExampleTests.
Import Errors Ctx run Scenarios.
Local Open Scope string_scope.

(** Every example calls [Wait] with a context that times out after a
    second (100 ms in the third); the printed text is the same whatever the
    runtime draws. *)
Example Wait_basic (s : Sched) :
  printed (Wait basic (WithTimeout Background 0 Second) 0 s) = Some None.
Proof. destruct s as [[p1 t1 j1] [p2 t2 j2]]; reflexivity. Qed.

Example Wait_startError (s : Sched) :
  printed (Wait startError (WithTimeout Background 0 Second) 0 s)
  = Some (Some "start failed").
Proof. destruct s as [[p1 t1 j1] [p2 t2 j2]]; reflexivity. Qed.

Example Wait_startContextDeadlineExceeded (s : Sched) :
  printed (Wait startContextDeadlineExceeded
             (WithTimeout Background 0 (100 * Millisecond)) 0 s)
  = Some (Some "start context deadline exceeded").
Proof. destruct s as [[p1 t1 j1] [p2 t2 j2]]; reflexivity. Qed.

Example Wait_stopError (s : Sched) :
  printed (Wait stopError (WithTimeout Background 0 Second) 0 s)
  = Some (Some ("start failed" ++ newline ++ "stop failed")).
Proof. destruct s as [[p1 t1 j1] [p2 t2 j2]]; reflexivity. Qed.

Example Wait_stopContextDeadlineExceeded (s : Sched) :
  printed (Wait stopContextDeadlineExceeded (WithTimeout Background 0 Second) 0 s)
  = Some (Some ("fail" ++ newline ++ "stop context deadline exceeded")).
Proof. destruct s as [[p1 t1 j1] [p2 t2 j2]]; reflexivity. Qed.

(** Two finalizers that fail at the same instant race for the failure
    channel: the runtime decides the order in which [stop] reports them. *)
Example stop_same_instant_failures (n : nat) :
  option_map (option_map Error) (outcome (stop two_failing_stops 0 (draw n 20)))
  = Some (Some ("second" ++ newline ++ "first")) /\
  option_map (option_map Error)
    (outcome (stop two_failing_stops 0 (draw_later_first n 20)))
  = Some (Some ("first" ++ newline ++ "second")).
Proof. split; reflexivity. Qed.

End ExampleTests.

(* ------------------------------------------------------------------ *)
(** ** Properties of the error aggregation *)

Module Aggregation.
Import Errors Ctx run Scenarios ErrorFacts StopFacts StopShape.
Local Open Scope string_scope.

(** C8. The aggregation, as [errors.Join] performs it and as [stop] uses it.
    Joining values that are all nil, or no value, gives nil.  Joining one or
    more failures gives a composite whose text is the messages of the
    failures in the order supplied, one per line (separated by a newline); in
    it [errors.Is] finds every failure supplied, composite or not, and beyond
    the composite itself nothing that it does not find in one of them.
    [errors.Is] finds a target exactly when the target is, by identity, one
    of the values that its traversal visits, so every error is found in
    itself.  The two sentinels have the fixed texts "start context deadline
    exceeded" and "stop context deadline exceeded" and are distinct
    identities.  Whenever [stop] returns a non-nil result, that result is the
    composite of the stop-timeout marker, if the deadline case was taken, and
    of the failures of the finalizers in posting order: its text lists them
    one per line in that order and [errors.Is] finds each of them; and in the
    composite that [Wait] builds from the start-timeout marker and that
    result, [errors.Is] finds the marker, the result of [stop] itself, and
    everything it finds in that result. *)
Theorem Join_aggregates
    (g : Group) (now : Z) (dr : Draw) (t : Z) (out : error) :
  result (stop g now dr) = Some (t, Some out) ->
  (forall addr errs,
      match nonnil errs with
      | [] => Join addr errs = None
      | es =>
          Join addr errs = Some (JoinError addr es) /\
          Error (JoinError addr es) = String.concat newline (map Error es) /\
          forallb (fun x => is_ (JoinError addr es) x) es = true /\
          forall target,
            is_ (JoinError addr es) target
            = same (JoinError addr es) target ||
              existsb (fun x => is_ x target) es
      end) /\
  (forall e target, is_ e target = existsb (fun n => same n target) (nodes e)) /\
  (forall e, is_ e e = true) /\
  Error ErrStartContextDeadlineExceeded = "start context deadline exceeded" /\
  Error ErrStopContextDeadlineExceeded = "stop context deadline exceeded" /\
  is_ ErrStartContextDeadlineExceeded ErrStopContextDeadlineExceeded = false /\
  is_ ErrStopContextDeadlineExceeded ErrStartContextDeadlineExceeded = false /\
  (exists pre,
      (pre = [] \/ pre = [ErrStopContextDeadlineExceeded]) /\
      out = JoinError (join dr) (pre ++ stop_failures g now dr) /\
      Error out
      = String.concat newline (map Error (pre ++ stop_failures g now dr)) /\
      forall x, In x (pre ++ stop_failures g now dr) -> is_ out x = true) /\
  (forall addr,
      let w := after_start_timeout addr (Some out) in
      is_ w ErrStartContextDeadlineExceeded = true /\
      is_ w out = true /\
      Error w = "start context deadline exceeded" ++ newline ++ Error out /\
      forall target, is_ out target = true -> is_ w target = true).
Proof.
  intros Hres.
  split.
  { intros addr errs. unfold Join.
    destruct (nonnil errs) as [|x es]; [reflexivity|].
    split; [reflexivity|]. split; [reflexivity|]. split; [|reflexivity].
    apply forallb_forall. intros y Hy.
    apply (is_wrapped addr (x :: es) y y Hy). apply is_refl. }
  split; [apply is_nodes|]. split; [apply is_refl|].
  split; [reflexivity|]. split; [reflexivity|].
  split; [reflexivity|]. split; [reflexivity|].
  split.
  - apply stop_shape in Hres. destruct Hres as [_ [pre [Hpre Ho]]].
    exists pre. split; [exact Hpre|]. rewrite Join_Some in Ho.
    destruct (pre ++ stop_failures g now dr)%list as [|x l] eqn:E; [discriminate|].
    injection Ho as ->.
    split; [reflexivity|]. split; [reflexivity|].
    intros y Hy. apply (is_wrapped _ _ y y Hy). apply is_refl.
  - intros addr w. unfold w. cbn [after_start_timeout].
    split; [reflexivity|]. split.
    { apply (is_wrapped _ _ out); [right; left; reflexivity | apply is_refl]. }
    split; [reflexivity|].
    intros target Ht. apply (is_wrapped _ _ out); [right; left; reflexivity|].
    exact Ht.
Qed.

Lemma Join_aggregates_witness :
  exists pre,
    (pre = [] \/ pre = [ErrStopContextDeadlineExceeded]) /\
    JoinError 20 [ErrStopContextDeadlineExceeded; New 12 "late"]
    = JoinError (join (draw 0 20))
        (pre ++ stop_failures late_failing_stop 0 (draw 0 20)) /\
    Error (JoinError 20 [ErrStopContextDeadlineExceeded; New 12 "late"])
    = String.concat newline
        (map Error (pre ++ stop_failures late_failing_stop 0 (draw 0 20))) /\
    forall x, In x (pre ++ stop_failures late_failing_stop 0 (draw 0 20)) ->
              is_ (JoinError 20 [ErrStopContextDeadlineExceeded; New 12 "late"]) x
              = true.
Proof.
  apply (Join_aggregates late_failing_stop 0 (draw 0 20) 100000000
           (JoinError 20 [ErrStopContextDeadlineExceeded; New 12 "late"])).
  reflexivity.
Defined.

End Aggregation.

(* ------------------------------------------------------------------ *)
(** ** Properties of [Wait] *)

Module WaitSpec.
Import Errors Chan Ctx run Scenarios.
Import ErrorFacts SelectFacts StopFacts StopShape RaceFacts WaitFacts.
Local Open Scope run_scope.

(** C3. When the start deadline fires strictly before the external signal
    and before the last initializer has returned, [Wait] runs the stop phase
    at the deadline and returns the start-timeout marker composed with the
    result of the stop phase: the marker alone when the stop phase returns
    no failure, and otherwise the marker first, on the first line, followed
    by the failures of the stop phase. *)
Theorem Wait_start_deadline_first (g : Group) (ctx : Context) (now : Z) (s : Sched) :
  before (start_deadline g now) (doneAt ctx) ->
  before (start_deadline g now) (allDone now (start_workers g now)) ->
  Wait g ctx now s =
    (' (t, err) <- stop g (start_deadline g now) (stop_draw s) ;;
     ret (t, Some (after_start_timeout (join (start_draw s)) err))) /\
  after_start_timeout (join (start_draw s)) None
    = ErrStartContextDeadlineExceeded /\
  forall e,
    Error (after_start_timeout (join (start_draw s)) (Some e)) =
      ("start context deadline exceeded" ++ newline ++ Error e)%string /\
    leaves (after_start_timeout (join (start_draw s)) (Some e)) =
      ErrStartContextDeadlineExceeded :: leaves e.
Proof.
  intros Hctx Hdone. split; [|split; [reflexivity|]].
  - apply Wait_StartCtxDone. unfold start_race.
    apply race_deadline_first; assumption.
  - intros e. split; [reflexivity|].
    simpl. rewrite app_nil_r. reflexivity.
Qed.

Lemma Wait_start_deadline_first_witness :
  before (start_deadline startContextDeadlineExceeded 0)
         (doneAt (WithTimeout Background 0 (100 * Millisecond))) /\
  outcome (Wait startContextDeadlineExceeded
             (WithTimeout Background 0 (100 * Millisecond)) 0
             (draws 0 0))
  = Some (Some ErrStartContextDeadlineExceeded).
Proof.
  split; [reflexivity|].
  rewrite (proj1 (Wait_start_deadline_first startContextDeadlineExceeded
                    (WithTimeout Background 0 (100 * Millisecond)) 0
                    (draws 0 0)
                    eq_refl eq_refl)).
  reflexivity.
Defined.

(** C1, as amended.  When the external signal fires after [Wait] was
    called, strictly before the start deadline and before the last
    initializer has returned, [Wait] runs the stop phase at that instant and
    returns exactly its result; so the start-timeout marker is in the
    Outcome only if a finalizer returned it. *)
Theorem Wait_cancelled_while_blocked
    (g : Group) (ctx : Context) (now : Z) (s : Sched) (c : Z) :
  doneAt ctx = Some c ->
  now < c ->
  c < start_deadline g now ->
  before c (allDone now (start_workers g now)) ->
  Wait g ctx now s = stop g c (stop_draw s) /\
  (stoppers_never_return g ErrStartContextDeadlineExceeded ->
   forall t o, result (Wait g ctx now s) = Some (t, o) ->
               Is o (Some ErrStartContextDeadlineExceeded) = false).
Proof.
  intros Hc Hnow Hdl Hdone.
  assert (HW : Wait g ctx now s = stop g c (stop_draw s)).
  { apply Wait_CtxDone. unfold start_race.
    apply race_ctx_first; assumption. }
  split; [exact HW|].
  intros Hclean t o. rewrite HW.
  apply stop_never_yields; [exact Hclean | reflexivity | reflexivity].
Qed.

Lemma Wait_cancelled_while_blocked_witness :
  Wait one_hanging_start (cancelled_at 7) 0 (draws 1 0)
  = stop one_hanging_start 7 (draw 0 20).
Proof.
  apply (Wait_cancelled_while_blocked one_hanging_start (cancelled_at 7) 0
           (draws 1 0) 7);
    [reflexivity | reflexivity | reflexivity | exact I].
Defined.

(** C1 as stated fails when the signal has fired by the time [Wait] is
    called.  With an initializer that is still running, the derived start
    context is done as well and the [select] may take its case: the Outcome
    is the start-timeout marker although the stop phase returned no failure.
    With an initializer that has failed at once, the [select] may take the
    completion case: the Outcome lists the start failure. *)
Lemma Wait_cancelled_before_call_counterexample :
  ~ (forall g ctx now s c,
        doneAt ctx = Some c ->
        c < start_deadline g now ->
        before c (allDone now (start_workers g now)) ->
        exists t, outcome (Wait g ctx now s) = outcome (stop g t (stop_draw s))) /\
  (calls (Wait one_hanging_start (cancelled_at 0) 0 (draws 1 0))
   = [stop_call one_hanging_start 0] /\
   outcome (stop one_hanging_start 0 (draw 0 20)) = Some None /\
   outcome (Wait one_hanging_start (cancelled_at 0) 0 (draws 1 0))
   = Some (Some ErrStartContextDeadlineExceeded)) /\
  (doneAt (cancelled_at (-1)) = Some (-1) /\
   -1 < start_deadline startError 0 /\
   before (-1) (allDone 0 (start_workers startError 0)) /\
   calls (Wait startError (cancelled_at (-1)) 0 (draws 2 0))
   = [stop_call startError 0] /\
   outcome (stop startError 0 (draw 0 20)) = Some None /\
   outcome (Wait startError (cancelled_at (-1)) 0 (draws 2 0))
   = Some (Some (JoinError 21 [New 10 "start failed"]))).
Proof.
  split; [|repeat split].
  intros H.
  destruct (H one_hanging_start (cancelled_at 0) 0
              (draws 1 0) 0 eq_refl eq_refl I)
    as [t Ht].
  change (outcome (Wait one_hanging_start (cancelled_at 0) 0
                     (draws 1 0)))
    with (Some (Some ErrStartContextDeadlineExceeded)) in Ht.
  unfold outcome in Ht. cbn [stop_draw draws] in Ht.
  destruct (result (stop one_hanging_start t (draw 0 20))) as [[t' o]|] eqn:E;
    [|discriminate].
  injection Ht as <-.
  assert (Hno : Is (Some ErrStartContextDeadlineExceeded)
                   (Some ErrStartContextDeadlineExceeded) = false).
  { apply (stop_never_yields one_hanging_start _ t (draw 0 20) t');
      [|reflexivity|reflexivity|exact E].
    intros a c' u d e [<-|[]] Hr. discriminate. }
  discriminate.
Qed.

(** C4. When the last initializer returns strictly before the external
    signal and before the start deadline, and at least one initializer
    posted a failure, [Wait] calls [stop] exactly once, at that instant, and
    returns the composite of the start failures, in the order in which they
    were posted, followed by the failure of the stop phase, if any; the text
    of the Outcome lists them in that order, the constituent failures are
    the start failures followed by those of the stop phase. *)
Theorem Wait_start_failures
    (g : Group) (ctx : Context) (now : Z) (s : Sched) (d : Z) :
  allDone now (start_workers g now) = Some d ->
  before d (doneAt ctx) ->
  d < start_deadline g now ->
  start_failures g now (start_draw s) <> [] ->
  let fs := start_failures g now (start_draw s) in
  let addr := join (start_draw s) in
  Wait g ctx now s =
    (' (t, stopErr) <- stop g d (stop_draw s) ;;
     ret (t, after_start_failures addr fs stopErr)) /\
  calls (Wait g ctx now s) = [stop_call g d] /\
  forall stopErr,
    let rest := match stopErr with Some e => [e] | None => [] end in
    after_start_failures addr fs stopErr = Some (JoinError addr (fs ++ rest)) /\
    Error (JoinError addr (fs ++ rest))
      = String.concat newline (map Error fs ++ map Error rest) /\
    leaves (JoinError addr (fs ++ rest))
      = flat_map leaves fs ++ flat_map leaves rest.
Proof.
  intros Hd Hctx Hdl Hf fs addr. unfold fs, addr.
  assert (HW : Wait g ctx now s =
    (' (t, stopErr) <- stop g d (stop_draw s) ;;
     ret (t, after_start_failures (join (start_draw s))
               (start_failures g now (start_draw s)) stopErr))).
  { apply (Wait_AllDone_failed g ctx now s d d); try assumption; try lia.
    unfold start_race. rewrite Hd.
    apply race_done_first; try assumption.
    apply (allDone_ge _ _ _ Hd). }
  split; [exact HW|]. split.
  - rewrite HW, calls_bind, stop_calls.
    destruct (result (stop g d (stop_draw s))) as [[t e]|]; reflexivity.
  - intros stopErr.
    set (rest := match stopErr with Some e => [e] | None => [] end).
    split; [|split].
    + unfold after_start_failures. fold rest. rewrite Join_Some.
      destruct (start_failures g now (start_draw s) ++ rest) as [|x l] eqn:E;
        [|reflexivity].
      apply app_eq_nil in E. tauto.
    + simpl. rewrite map_app. reflexivity.
    + simpl. apply flat_map_app.
Qed.

Lemma Wait_start_failures_witness :
  Wait stopError (WithTimeout Background 0 Second) 0 (draws 0 0)
  = ([stop_call stopError 0],
     Some (0, Some (JoinError 21 [New 10 "start failed";
                                  JoinError 20 [New 11 "stop failed"]]))).
Proof.
  rewrite (proj1 (Wait_start_failures stopError (WithTimeout Background 0 Second) 0
                    (draws 0 0) 0
                    eq_refl eq_refl eq_refl
                    ltac:(discriminate))).
  reflexivity.
Defined.

(** [Wait] never calls [stop] twice, and calls it as soon as its [select]
    has taken the external-signal case, the start-deadline case, or the
    completion case with a failure. *)
Lemma Wait_calls (g : Group) (ctx : Context) (now : Z) (s : Sched) :
  calls (Wait g ctx now s) = [] /\ result (Wait g ctx now s) = None \/
  exists t, calls (Wait g ctx now s) = [stop_call g t].
Proof.
  unfold Wait.
  destruct (select now _ (pick (start_draw s))) as [[c t1]|];
    [rewrite bind_lift_Some | left; split; reflexivity].
  destruct c.
  - right. exists t1. apply stop_calls.
  - right. exists t1. rewrite calls_bind, stop_calls.
    destruct (result (stop g t1 (stop_draw s))) as [[t2 [e|]]|]; reflexivity.
  - unfold range, recv.
    destruct (allDone now _) as [d|]; cbn [option_map];
      [rewrite bind_lift_Some, bind_ret_l | left; split; reflexivity].
    destruct (0 <? List.length _)%nat.
    + right. exists (Z.max t1 d). rewrite calls_bind, stop_calls.
      destruct (result (stop g _ (stop_draw s))) as [[t3 [e|]]|]; reflexivity.
    + destruct (doneAt ctx) as [c|]; cbn [option_map];
        [rewrite bind_lift_Some | left; split; reflexivity].
      right. exists (Z.max (Z.max t1 d) c). apply stop_calls.
Qed.

(** C9. Whenever [Wait] returns, whichever case its [select] took
    (external signal, start deadline, completion with a failure, or
    completion without failure followed by the external signal), it has
    called [stop] exactly once before returning. *)
Theorem Wait_stops_exactly_once
    (g : Group) (ctx : Context) (now : Z) (s : Sched) (r : Z * option error) :
  result (Wait g ctx now s) = Some r ->
  exists t, calls (Wait g ctx now s) = [stop_call g t].
Proof.
  intros Hr. destruct (Wait_calls g ctx now s) as [[_ Hn]|H]; [congruence|exact H].
Qed.

Lemma Wait_stops_exactly_once_witness :
  exists t,
    calls (Wait basic (WithTimeout Background 0 Second) 0
             (draws 0 0)) = [stop_call basic t].
Proof.
  apply (Wait_stops_exactly_once basic (WithTimeout Background 0 Second) 0
           (draws 0 0) (Second, None)).
  reflexivity.
Defined.

(** The group with another start timeout. *)
Lemma stop_ignores_start_timeout (g : Group) (v : Duration) (now : Z) (dr : Draw) :
  stop {| opts := WithStartTimeout v (opts g);
          starters := starters g; stoppers := stoppers g |} now dr
  = stop g now dr.
Proof. apply stop_ext; reflexivity. Qed.



(** The external signal and the completion of the initializers at one
    instant, before the start deadline: either case may be taken, never the
    start-deadline case. *)
Lemma race_ctx_or_done (ctx : Context) (now st : Z) rnd c :
  doneAt ctx = Some c -> now < c -> c < Z.max (now + st) now ->
  let r := select now [(CtxDone, Done ctx);
                       (StartCtxDone, Done (WithTimeout ctx now st));
                       (AllDone, closed_at (Some c))] rnd in
  r = Some (CtxDone, c) \/ r = Some (AllDone, c).
Proof.
  unfold doneAt. intros Hc Hnow Hdl.
  destruct (Done ctx) as [[c' k]|] eqn:E; simpl in Hc; [|discriminate].
  injection Hc as ->. simpl Done. rewrite E.
  race; auto.
  match goal with
  | |- context [choose rnd ?x ?xs] =>
      destruct (choose_In rnd x xs) as [<-|[<-|[]]]; auto
  end.
Qed.

(** Initializers that all return success post nothing and all finish. *)
Lemma clean_starters (g : Group) (now : Z) (dr : Draw) :
  (forall a t, In a (starters g) -> exists d, a t = Returns d None) ->
  start_failures g now dr = [] /\
  exists d, allDone now (start_workers g now) = Some d.
Proof.
  intros H. unfold start_failures, start_workers. split.
  - rewrite posts_nil; [reflexivity|].
    intros d e Hin. apply in_map_iff in Hin. destruct Hin as [a [Ha Hin]].
    destruct (H a now Hin) as [d' Hd']. congruence.
  - apply allDone_returns. intros b Hin.
    apply in_map_iff in Hin. destruct Hin as [a [Ha Hin]].
    destruct (H a now Hin) as [d' Hd']. congruence.
Qed.

Lemma allDone_within (now bound : Z) (bs : list Behaviour) :
  now < bound ->
  (forall b, In b bs -> exists d, b = Returns d None /\ now + Z.of_N d < bound) ->
  exists d, allDone now bs = Some d /\ d < bound.
Proof.
  intros Hb. induction bs as [|b bs IH]; intros H; simpl.
  - eauto.
  - destruct (H b (or_introl eq_refl)) as [d [-> Hd]].
    destruct IH as [d' [-> Hd']]; [intros x Hx; apply H; right; exact Hx|].
    simpl. eexists. split; [reflexivity|]. lia.
Qed.

(** Finalizers that all return success within the stop timeout: the stop
    phase returns no failure. *)
Lemma stop_clean (g : Group) (now : Z) (dr : Draw) :
  0 < stopTimeout (opts g) ->
  (forall a cx t, In a (stoppers g) ->
     exists d, a cx t = Returns d None /\ Z.of_N d < stopTimeout (opts g)) ->
  exists t, stop g now dr = ([stop_call g now], Some (t, None)).
Proof.
  intros Hpos H.
  destruct (allDone_within now (now + stopTimeout (opts g)) (stop_workers g now))
    as [d [Hd Hlt]]; [lia| |].
  { intros b Hin. unfold stop_workers in Hin.
    apply in_map_iff in Hin. destruct Hin as [a [Ha Hin]].
    apply in_rev in Hin.
    destruct (H a (WithTimeout Background now (stopTimeout (opts g))) now Hin)
      as [d [Hr Hd]].
    exists d. split; [congruence | lia]. }
  exists d. rewrite (stop_done_first g now dr d Hd);
    [|unfold stop_deadline; lia].
  unfold stop_failures. rewrite posts_nil; [reflexivity|].
  intros d' e Hin. unfold stop_workers in Hin.
  apply in_map_iff in Hin. destruct Hin as [a [Ha Hin]].
  apply in_rev in Hin.
  destruct (H a (WithTimeout Background now (stopTimeout (opts g))) now Hin)
    as [d'' [Hr _]].
  congruence.
Qed.

(** C5, as amended.  When every initializer returns success, every
    finalizer returns success within the stop timeout, and the external
    signal fires after [Wait] was called and strictly before the start
    deadline, [Wait] calls [stop] when the signal fires and returns nil. *)
Theorem Wait_clean_run
    (g : Group) (ctx : Context) (now : Z) (s : Sched) (c : Z) :
  (forall a t, In a (starters g) -> exists d, a t = Returns d None) ->
  0 < stopTimeout (opts g) ->
  (forall a cx t, In a (stoppers g) ->
     exists d, a cx t = Returns d None /\ Z.of_N d < stopTimeout (opts g)) ->
  doneAt ctx = Some c ->
  now < c ->
  c < start_deadline g now ->
  exists t, Wait g ctx now s = ([stop_call g c], Some (t, None)).
Proof.
  intros Hstart Hpos Hstop Hc Hnow Hdl.
  destruct (clean_starters g now (start_draw s) Hstart) as [Hf [d Hd]].
  pose proof (allDone_ge _ _ _ Hd) as Hge.
  assert (HW : Wait g ctx now s = stop g c (stop_draw s)).
  { assert (Hclean : forall t1, t1 <= c -> d <= t1 ->
              start_race g ctx now (pick (start_draw s)) = Some (AllDone, t1) ->
              Wait g ctx now s = stop g c (stop_draw s)).
    { intros t1 Ht1 Hdt Hr.
      rewrite (Wait_AllDone_clean g ctx now s t1 d Hr Hd Hdt Hf).
      unfold recv. rewrite Hc. cbn [option_map]. rewrite bind_lift_Some.
      replace (Z.max t1 c) with c by lia. reflexivity. }
    destruct (Z.lt_trichotomy d c) as [Hlt|[Heq|Hgt]].
    - apply (Hclean d); try lia.
      unfold start_race. rewrite Hd.
      apply race_done_first;
        [lia | rewrite Hc; exact Hlt | unfold start_deadline in Hdl; lia].
    - subst d.
      destruct (race_ctx_or_done ctx now (startTimeout (opts g))
                  (pick (start_draw s)) c Hc Hnow Hdl) as [Hr|Hr].
      + apply Wait_CtxDone. unfold start_race. rewrite Hd. exact Hr.
      + apply (Hclean c); try lia. unfold start_race. rewrite Hd. exact Hr.
    - apply Wait_CtxDone. unfold start_race. rewrite Hd.
      apply race_ctx_first; assumption. }
  rewrite HW. apply stop_clean; assumption.
Qed.

Lemma Wait_clean_run_witness :
  exists t,
    Wait basic (cancelled_at 5) 0 (draws 0 0)
    = ([stop_call basic 5], Some (t, None)).
Proof.
  apply (Wait_clean_run basic (cancelled_at 5) 0
           (draws 0 0) 5).
  - intros a t [<-|[]]. exists 0%N. reflexivity.
  - reflexivity.
  - intros a cx t [<-|[]]. exists 0%N. split; reflexivity.
  - reflexivity.
  - reflexivity.
  - reflexivity.
Defined.

(** C5 as stated fails: a finalizer that returns success, but only after
    the stop deadline, leaves the stop-timeout marker in the Outcome although
    no callable failed and the signal fired before either deadline; and a
    signal that has fired by the time [Wait] is called may leave the
    start-timeout marker. *)
Lemma Wait_clean_run_counterexample :
  ~ (forall g ctx now s c,
        (forall a t, In a (starters g) -> exists d, a t = Returns d None) ->
        (forall a cx t, In a (stoppers g) -> exists d, a cx t = Returns d None) ->
        doneAt ctx = Some c ->
        c < start_deadline g now ->
        (forall t, c <= t -> c < stop_deadline g t) ->
        outcome (Wait g ctx now s) = Some None) /\
  (let s := (draws 0 0) in
   start_workers slow_clean_stop 0 = [Returns 0 None] /\
   stop_workers slow_clean_stop 5 = [Returns 100000000 None] /\
   stop_deadline slow_clean_stop 5 = 50000005 /\
   Wait slow_clean_stop (cancelled_at 5) 0 s
   = ([stop_call slow_clean_stop 5],
      Some (100000005, Some (JoinError 20 [ErrStopContextDeadlineExceeded])))) /\
  (let s := (draws 1 0) in
   start_workers basic 0 = [Returns 0 None] /\
   stop_workers basic 0 = [Returns 0 None] /\
   Wait basic (cancelled_at 0) 0 s
   = ([stop_call basic 0], Some (0, Some ErrStartContextDeadlineExceeded))).
Proof.
  split; [|repeat split].
  intros H.
  specialize (H slow_clean_stop (cancelled_at 5) 0
                (draws 0 0) 5).
  assert (Hw : outcome (Wait slow_clean_stop (cancelled_at 5) 0
                          (draws 0 0))
               = Some (Some (JoinError 20 [ErrStopContextDeadlineExceeded])))
    by reflexivity.
  rewrite Hw in H.
  assert (Some (Some (JoinError 20 [ErrStopContextDeadlineExceeded])) = Some None);
    [|discriminate].
  apply H.
  - intros a t [<-|[]]. exists 0%N. reflexivity.
  - intros a cx t [<-|[]]. exists 100000000%N. reflexivity.
  - reflexivity.
  - reflexivity.
  - intros t Ht. unfold stop_deadline. simpl. lia.
Qed.

(** The defect behind C6, for every group: whenever the caller's context
    is done by the time [Wait] is called, the derived start context is done
    too, whatever the start timeout, and some draw of the [select] takes its
    case. *)
Lemma cancelled_ctx_readies_start_timeout
    (g : Group) (ctx : Context) (now c : Z) :
  doneAt ctx = Some c -> c <= now ->
  ready now (Done (WithTimeout ctx now (startTimeout (opts g)))) = true /\
  exists rnd, start_race g ctx now rnd = Some (StartCtxDone, now).
Proof.
  unfold doneAt. intros Hc Hle.
  destruct (Done ctx) as [[c' k]|] eqn:E; simpl in Hc; [|discriminate].
  injection Hc as ->. split.
  - simpl Done. rewrite E.
    unfold first, propagated, stamp_ltb, option_map, ready.
    cbn [fst snd]. cmp'; reflexivity.
  - exists 1%nat. unfold start_race. simpl Done. rewrite E.
    destruct (allDone now (start_workers g now)) as [d|];
      unfold select, first, propagated, closed_at, ready, stamp_ltb, option_map;
      cbn [filter map fst snd andb orb]; cmp'; reflexivity.
Qed.

(** C6, on the code.  A group with no pair and the default timeouts, and an
    external signal that has fired when [Wait] is called at instant 0: the
    signal's channel, the channel of the derived start context and the
    completion channel are all ready, and the Outcome depends on the case
    that the [select] takes.  The first and the third give nil; the second
    gives the start-timeout marker, fifteen seconds before the start
    deadline. *)
Theorem Wait_empty_cancelled (rnd : nat) :
  starters empty = [] /\ stoppers empty = [] /\ opts empty = defaultOptions /\
  doneAt (cancelled_at 0) = Some 0 /\
  start_deadline empty 0 = 15000000000 /\
  Wait empty (cancelled_at 0) 0 (draws 0 rnd)
  = ([stop_call empty 0], Some (0, None)) /\
  Wait empty (cancelled_at 0) 0 (draws 1 rnd)
  = ([stop_call empty 0], Some (0, Some ErrStartContextDeadlineExceeded)) /\
  Wait empty (cancelled_at 0) 0 (draws 2 rnd)
  = ([stop_call empty 0], Some (0, None)).
Proof. repeat split. Qed.

(** C2, on the code.  A stop timeout of 50 ms and one finalizer that returns
    a failure after 100 ms: the stop deadline fires first, and at that
    instant the failure channel holds nothing.  [stop] nevertheless returns
    only at 100 ms, when the finalizer has returned and the channel is
    closed, and its result holds the late failure behind the marker.  With a
    finalizer that never returns, [stop] never returns. *)
Theorem stop_waits_after_deadline (dr : Draw) :
  stop_deadline late_failing_stop 0 = 50000000 /\
  stop_workers late_failing_stop 0 = [Returns 100000000 (Some (New 12 "late"))] /\
  allDone 0 (stop_workers late_failing_stop 0) = Some 100000000 /\
  buffered (stop_deadline late_failing_stop 0)
           (posts 0 (tie dr) (stop_workers late_failing_stop 0)) = [] /\
  stop late_failing_stop 0 dr
  = ([stop_call late_failing_stop 0],
     Some (100000000,
           Some (JoinError (join dr)
                   [ErrStopContextDeadlineExceeded; New 12 "late"]))) /\
  stop_deadline hanging_stop 0 = 50000000 /\
  stop hanging_stop 0 dr = ([stop_call hanging_stop 0], None).
Proof. repeat split. Qed.

End WaitSpec.

(* ------------------------------------------------------------------ *)
(** ** Options and registration *)

Module Registration.
Import Errors Ctx run Derived.

Lemma NewGroup_app (os : list Option) (o : Option) :
  opts (NewGroup (os ++ [o])) = o (opts (NewGroup os)).
Proof. unfold NewGroup. simpl. rewrite fold_left_app. reflexivity. Qed.

(** X1. [NewGroup] starts from the default of fifteen seconds for both
    timeouts and applies the options from left to right: an option given
    last decides its own timeout and leaves the other timeout as the options
    before it set it, so the two kinds of option can be given in either
    order; the group starts without any registered pair. *)
Theorem NewGroup_options (os : list Option) (a b : Duration) :
  opts (NewGroup []) =
    {| startTimeout := 15000000000; stopTimeout := 15000000000 |} /\
  opts (NewGroup (os ++ [WithStartTimeout a])) =
    {| startTimeout := a; stopTimeout := stopTimeout (opts (NewGroup os)) |} /\
  opts (NewGroup (os ++ [WithStopTimeout b])) =
    {| startTimeout := startTimeout (opts (NewGroup os)); stopTimeout := b |} /\
  opts (NewGroup (os ++ [WithStartTimeout a; WithStopTimeout b])) =
    {| startTimeout := a; stopTimeout := b |} /\
  opts (NewGroup (os ++ [WithStopTimeout b; WithStartTimeout a])) =
    {| startTimeout := a; stopTimeout := b |} /\
  starters (NewGroup os) = [] /\ stoppers (NewGroup os) = [].
Proof.
  repeat split.
  - apply NewGroup_app.
  - apply NewGroup_app.
  - change (os ++ [WithStartTimeout a; WithStopTimeout b])
      with (os ++ [WithStartTimeout a] ++ [WithStopTimeout b]).
    rewrite app_assoc, !NewGroup_app. reflexivity.
  - change (os ++ [WithStopTimeout b; WithStartTimeout a])
      with (os ++ [WithStopTimeout b] ++ [WithStartTimeout a]).
    rewrite app_assoc, !NewGroup_app. reflexivity.
Qed.

Lemma AddAll_fields (g : Group) (ps : list (Start * Stop)) :
  starters (AddAll g ps) = starters g ++ map fst ps /\
  stoppers (AddAll g ps) = stoppers g ++ map snd ps /\
  opts (AddAll g ps) = opts g.
Proof.
  revert g. induction ps as [|p ps IH]; intros g; simpl.
  - rewrite !app_nil_r. auto.
  - destruct (IH (Add g (fst p) (snd p))) as [H1 [H2 H3]].
    unfold AddAll in *. rewrite H1, H2, H3. simpl.
    rewrite <- !app_assoc. auto.
Qed.

Lemma combine_fst_snd {A B : Type} (ps : list (A * B)) :
  combine (map fst ps) (map snd ps) = ps.
Proof. induction ps as [|[a b] ps IH]; simpl; congruence. Qed.

(** X2. Registration is per pair and keeps order: after any chain of [Add]
    on a new group, the initializers and the finalizers are exactly the
    registered ones in registration order, position by position the pairs
    that were registered (so both sequences have the same length), and the
    options are those given to [NewGroup]. *)
Theorem Add_keeps_pairs (os : list Option) (ps : list (Start * Stop)) :
  let g := AddAll (NewGroup os) ps in
  starters g = map fst ps /\
  stoppers g = map snd ps /\
  combine (starters g) (stoppers g) = ps /\
  List.length (starters g) = List.length (stoppers g) /\
  opts g = opts (NewGroup os).
Proof.
  destruct (AddAll_fields (NewGroup os) ps) as [H1 [H2 H3]].
  simpl in H1, H2. cbv zeta. rewrite H1, H2, H3.
  repeat split.
  - apply combine_fst_snd.
  - rewrite !length_map. reflexivity.
Qed.

End Registration.

(* ------------------------------------------------------------------ *)
(** ** More facts about [select] *)

Module SelectMore.
Import Chan Ctx SelectFacts.

Lemma first_le (x y : Stamp) :
  exists r, first (Some x) (Some y) = Some r /\
            (r = x \/ r = y) /\ fst r <= fst x /\ fst r <= fst y.
Proof.
  unfold first, stamp_ltb.
  destruct (Z.ltb_spec (fst y) (fst x)); simpl.
  - exists y. repeat split; auto; lia.
  - destruct (Z.eqb_spec (fst y) (fst x)); simpl.
    + destruct (Nat.ltb (snd y) (snd x)); eexists; repeat split; auto; lia.
    + exists x. repeat split; auto; lia.
Qed.

(** The first close of a list of channels is one of them and no later than
    any of them. *)
Lemma earliest_spec (cs : list Chan) :
  match earliest cs with
  | Some s => In (Some s) cs /\ forall x, In (Some x) cs -> fst s <= fst x
  | None => forall x, ~ In (Some x) cs
  end.
Proof.
  induction cs as [|c cs IH]; [simpl; tauto|].
  change (earliest (c :: cs)) with (first c (earliest cs)).
  destruct c as [x|]; destruct (earliest cs) as [s|].
  - destruct IH as [Hin Hle].
    destruct (first_le x s) as [r [Hr [Hc [H1 H2]]]]. rewrite Hr. split.
    + destruct Hc as [-> | ->]; [left; reflexivity | right; exact Hin].
    + intros z [[= <-]|Hz]; [exact H1|]. specialize (Hle z Hz). lia.
  - simpl. split; [auto|]. intros z [[= <-]|Hz]; [lia | elim (IH z Hz)].
  - simpl. destruct IH as [Hin Hle]. split; [auto|].
    intros z [[=]|Hz]. auto.
  - simpl. intros z [[=]|Hz]. exact (IH z Hz).
Qed.

(** What a [select] returns: a case whose channel is closed by the instant
    at which execution resumes; that instant is not before the entry and,
    whatever case is taken, not after the entry or the close of any channel,
    whichever is later. *)
Lemma select_spec {A : Type} (now : Z) (cases : list (A * Chan)) rnd a t :
  select now cases rnd = Some (a, t) ->
  (exists x, In (a, Some x) cases /\ fst x <= t) /\
  now <= t /\
  forall b x, In (b, Some x) cases -> t <= Z.max now (fst x).
Proof.
  unfold select.
  destruct (filter (fun c => ready now (snd c)) cases) as [|c cs] eqn:Hr.
  - pose proof (earliest_spec (map snd cases)) as He.
    destruct (earliest (map snd cases)) as [s|]; [|discriminate].
    destruct He as [Hin Hle].
    assert (Hlate : now < fst s).
    { apply in_map_iff in Hin. destruct Hin as [[b ch] [Hs Hb]].
      simpl in Hs. subst ch.
      destruct (Z.ltb_spec now (fst s)) as [|Hge]; [assumption|].
      assert (Hf : In (b, Some s) (filter (fun c => ready now (snd c)) cases)).
      { apply filter_In. split; [exact Hb|]. simpl. destruct s as [u k].
        simpl in *. apply Z.leb_le. exact Hge. }
      rewrite Hr in Hf. destruct Hf. }
    destruct (filter (fun c => closes_on s (snd c)) cases) as [|c cs] eqn:Hf;
      [discriminate|].
    intros [= <- <-].
    pose proof (choose_In rnd c cs) as Hc. rewrite <- Hf in Hc.
    apply filter_In in Hc. destruct Hc as [Hc Hon].
    destruct (choose rnd c cs) as [a' ch]. simpl in *.
    destruct ch as [x|]; [|discriminate].
    unfold stamp_eqb in Hon. apply andb_true_iff in Hon.
    destruct Hon as [Ht _]. apply Z.eqb_eq in Ht.
    split; [exists x; split; [exact Hc | lia]|].
    split; [lia|].
    intros b y Hy.
    assert (fst s <= fst y).
    { apply Hle. apply in_map_iff. exists (b, Some y). auto. }
    lia.
  - intros [= <- <-].
    pose proof (choose_In rnd c cs) as Hc. rewrite <- Hr in Hc.
    apply filter_In in Hc. destruct Hc as [Hc Hon].
    destruct (choose rnd c cs) as [a' ch]. simpl in *.
    destruct ch as [[u k]|]; [|discriminate].
    apply Z.leb_le in Hon.
    split; [exists (u, k); split; [exact Hc | exact Hon]|].
    split; [lia|]. intros b y Hy. lia.
Qed.

(** A [select] with a case whose channel is closed at some instant does not
    block for ever. *)
Lemma select_total {A : Type} (now : Z) (cases : list (A * Chan)) rnd b x :
  In (b, Some x) cases -> exists a t, select now cases rnd = Some (a, t).
Proof.
  intros Hb. unfold select.
  destruct (filter (fun c => ready now (snd c)) cases) as [|c cs];
    [|eauto].
  pose proof (earliest_spec (map snd cases)) as He.
  destruct (earliest (map snd cases)) as [s|].
  - destruct He as [Hin _].
    apply in_map_iff in Hin. destruct Hin as [[b' ch] [Hs Hb']].
    simpl in Hs. subst ch.
    destruct (filter (fun c => closes_on s (snd c)) cases) as [|c cs] eqn:Hf;
      [|eauto].
    assert (Hf' : In (b', Some s) (filter (fun c => closes_on s (snd c)) cases)).
    { apply filter_In. split; [exact Hb'|]. simpl. unfold stamp_eqb.
      rewrite Z.eqb_refl, Nat.eqb_refl. reflexivity. }
    rewrite Hf in Hf'. destruct Hf'.
  - elim (He x). apply in_map_iff. exists (b, Some x). auto.
Qed.

End SelectMore.

(* ------------------------------------------------------------------ *)
(** ** More properties of the stop phase *)

Module StopMore.
Import Errors Chan Ctx run Derived Scenarios.
Import ErrorFacts SelectFacts SelectMore StopFacts StopShape WaitFacts.
Local Open Scope run_scope.

Lemma allDone_each (now : Z) (bs : list Behaviour) (t : Z) :
  allDone now bs = Some t ->
  forall d e, In (Returns d e) bs -> now + Z.of_N d <= t.
Proof.
  revert t. induction bs as [|[n x|] bs IH]; simpl; intros t H d e Hin.
  - destruct Hin.
  - destruct (allDone now bs) as [t'|]; simpl in H; [|discriminate].
    injection H as <-. destruct Hin as [[= <- <-]|Hin]; [lia|].
    specialize (IH _ eq_refl d e Hin). lia.
  - discriminate.
Qed.

Lemma allDone_no_hang (now : Z) (bs : list Behaviour) (t : Z) :
  allDone now bs = Some t -> ~ In Hangs bs.
Proof.
  revert t. induction bs as [|[n x|] bs IH]; simpl; intros t H Hin.
  - exact Hin.
  - destruct (allDone now bs) as [t'|]; simpl in H; [|discriminate].
    destruct Hin as [[=]|Hin]. exact (IH _ eq_refl Hin).
  - discriminate.
Qed.

(** The [select] of [stop] never blocks for ever, and resumes no later than
    the stop deadline and no later than the return of the last finalizer. *)
Lemma stop_select (g : Group) (now : Z) (dr : Draw) :
  exists c t1,
    select now [(StopCtxDone, Done (WithTimeout Background now (stopTimeout (opts g))));
                (StopDone, closed_at (allDone now (stop_workers g now)))] (pick dr)
    = Some (c, t1) /\
    now <= t1 <= stop_deadline g now /\
    forall d, allDone now (stop_workers g now) = Some d -> t1 <= d.
Proof.
  set (cases := [(StopCtxDone, Done (WithTimeout Background now (stopTimeout (opts g))));
                 (StopDone, closed_at (allDone now (stop_workers g now)))]).
  assert (Hdl : In (StopCtxDone, Some (stop_deadline g now, 0%nat)) cases)
    by (left; reflexivity).
  destruct (select_total now cases (pick dr) _ _ Hdl) as [c [t1 Hs]].
  exists c, t1. split; [exact Hs|].
  destruct (select_spec now cases (pick dr) c t1 Hs) as [_ [Hge Hle]].
  split.
  - split; [exact Hge|]. specialize (Hle _ _ Hdl). simpl in Hle.
    unfold stop_deadline in *. lia.
  - intros d Hd. pose proof (allDone_ge _ _ _ Hd).
    assert (Hin : In (StopDone, Some (d, 0%nat)) cases)
      by (right; left; rewrite Hd; reflexivity).
    specialize (Hle _ _ Hin). simpl in Hle. lia.
Qed.

(** [stop] returns when the last finalizer has returned. *)
Lemma stop_returns (g : Group) (now : Z) (dr : Draw) (d : Z) :
  allDone now (stop_workers g now) = Some d ->
  exists o, result (stop g now dr) = Some (d, o).
Proof.
  intros Hd. destruct (stop_select g now dr) as [c [t1 [Hs [_ Hle]]]].
  specialize (Hle d Hd).
  unfold stop, result, range, recv. fold (stop_workers g now).
  rewrite Hs, Hd. unfold ret, lift, emit, bind. cbn [option_map fst snd].
  replace (Z.max t1 d) with d by lia.
  destruct (List.length _ =? 0)%nat; eexists; reflexivity.
Qed.

(** X5. [stop] returns exactly when the last finalizer has returned,
    whatever the stop timeout and whatever its [select] draws: it returns if
    and only if every finalizer returns, and then at the instant at which the
    last one does, never at the stop deadline when that is earlier. *)
Theorem stop_returns_with_last_finalizer (g : Group) (now : Z) (dr : Draw) :
  option_map fst (result (stop g now dr)) = allDone now (stop_workers g now).
Proof.
  destruct (allDone now (stop_workers g now)) as [d|] eqn:Hd.
  - destruct (stop_returns g now dr d Hd) as [o ->]. reflexivity.
  - rewrite (stop_hangs g now dr Hd). reflexivity.
Qed.

(** X6. When every finalizer returns strictly before the stop deadline,
    [stop] returns once the last one has, without the stop-timeout marker:
    nil when no finalizer failed, and otherwise the composite of the
    failures in the order in which they were posted. *)
Theorem stop_finalizers_in_time (g : Group) (now : Z) (dr : Draw) (d : Z) :
  allDone now (stop_workers g now) = Some d ->
  d < stop_deadline g now ->
  result (stop g now dr) =
    Some (d, match stop_failures g now dr with
             | [] => None
             | fs => Some (JoinError (join dr) fs)
             end) /\
  calls (stop g now dr) = [stop_call g now].
Proof.
  intros Hd Hlt. rewrite (stop_done_first g now dr d Hd Hlt).
  split; [|reflexivity]. unfold result. simpl. rewrite Join_Some.
  destruct (stop_failures g now dr); reflexivity.
Qed.

Lemma stop_finalizers_in_time_witness :
  result (stop stopError 0 (draw 0 20))
  = Some (0, Some (JoinError 20 [New 11 "stop failed"])).
Proof.
  apply (stop_finalizers_in_time stopError 0 (draw 0 20) 0);
    reflexivity.
Defined.

(** X7. When the stop deadline fires strictly before the last finalizer has
    returned (all of them returning in the end), the result of [stop] is the
    composite of the stop-timeout marker, first, and of the failures of all
    finalizers in posting order, those posted after the deadline included;
    [stop] returns when the last finalizer has, after the deadline. *)
Theorem stop_deadline_exceeded (g : Group) (now : Z) (dr : Draw) (d : Z) :
  allDone now (stop_workers g now) = Some d ->
  stop_deadline g now < d ->
  result (stop g now dr) =
    Some (d, Some (JoinError (join dr)
                     (ErrStopContextDeadlineExceeded :: stop_failures g now dr))) /\
  leaves (JoinError (join dr)
            (ErrStopContextDeadlineExceeded :: stop_failures g now dr)) =
    ErrStopContextDeadlineExceeded :: flat_map leaves (stop_failures g now dr).
Proof.
  intros Hd Hlt. rewrite (stop_deadline_first g now dr d Hd Hlt).
  split; reflexivity.
Qed.

Lemma stop_deadline_exceeded_witness :
  result (stop stopContextDeadlineExceeded 0 (draw 0 20))
  = Some (100000000, Some (JoinError 20 [ErrStopContextDeadlineExceeded])).
Proof.
  apply (stop_deadline_exceeded stopContextDeadlineExceeded 0
           (draw 0 20) 100000000);
    reflexivity.
Defined.

(** X8. No failure of a finalizer is dropped: whenever [stop] returns, its
    result is not nil if a finalizer returned a failure, and every error
    that [errors.Is] finds in a failure returned by a finalizer, it finds in
    the result. *)
Theorem stop_surfaces_failures
    (g : Group) (now : Z) (dr : Draw) (t : Z) (o : option error)
    (a : Stop) (d : N) (e : error) :
  In a (stoppers g) ->
  a (WithTimeout Background now (stopTimeout (opts g))) now = Returns d (Some e) ->
  result (stop g now dr) = Some (t, o) ->
  exists out, o = Some out /\
              forall target, is_ e target = true -> is_ out target = true.
Proof.
  intros Ha Hr Hres. apply stop_shape in Hres.
  destruct Hres as [_ [pre [_ ->]]].
  assert (Hin : In e (stop_failures g now dr)).
  { unfold stop_failures. apply (posts_complete now (tie dr) _ d).
    unfold stop_workers. apply in_map_iff. exists a.
    split; [exact Hr | apply -> in_rev; exact Ha]. }
  rewrite Join_Some.
  destruct (pre ++ stop_failures g now dr) as [|x l] eqn:E.
  - apply app_eq_nil in E. destruct E as [_ E]. rewrite E in Hin. destruct Hin.
  - rewrite <- E. eexists. split; [reflexivity|].
    intros target Ht.
    apply (is_wrapped _ _ e); [apply in_or_app; right; exact Hin | exact Ht].
Qed.

Lemma stop_surfaces_failures_witness :
  exists out,
    Some (JoinError 20 [New 11 "stop failed"]) = Some out /\
    forall target, is_ (New 11 "stop failed") target = true ->
                   is_ out target = true.
Proof.
  apply (stop_surfaces_failures stopError 0 (draw 0 20) 0 _
           (fail_stop 11 "stop failed") 0%N (New 11 "stop failed")).
  - left. reflexivity.
  - reflexivity.
  - reflexivity.
Defined.

(** A nil result of [stop]: every finalizer has returned success. *)
Lemma stop_nil_clean
    (g : Group) (now : Z) (dr : Draw) (t : Z) (a : Stop) :
  result (stop g now dr) = Some (t, None) ->
  In a (stoppers g) ->
  exists d, a (WithTimeout Background now (stopTimeout (opts g))) now
            = Returns d None /\ now + Z.of_N d <= t.
Proof.
  intros Hres Ha.
  pose proof (stop_shape g now dr t None Hres) as [Hd [pre [_ Hnil]]].
  destruct (allDone now (stop_workers g now)) as [t'|] eqn:Ht; [|congruence].
  destruct (stop_returns g now dr t' Ht) as [o Ho].
  rewrite Hres in Ho. injection Ho as <- _.
  assert (Hw : In (a (WithTimeout Background now (stopTimeout (opts g))) now)
                  (stop_workers g now)).
  { unfold stop_workers. apply in_map_iff. exists a.
    split; [reflexivity | apply -> in_rev; exact Ha]. }
  destruct (a (WithTimeout Background now (stopTimeout (opts g))) now)
    as [d [e|]|] eqn:Hr.
  - apply (posts_complete now (tie dr)) in Hw.
    fold (stop_failures g now dr) in Hw.
    rewrite Join_Some in Hnil.
    destruct (pre ++ stop_failures g now dr) as [|x l] eqn:E; [|discriminate].
    apply app_eq_nil in E. destruct E as [_ E]. rewrite E in Hw. destruct Hw.
  - exists d. split; [reflexivity|].
    apply (allDone_each now (stop_workers g now) t Ht d None Hw).
  - elim (allDone_no_hang now (stop_workers g now) t Ht Hw).
Qed.

(** X9. A nil result of [stop] means a clean shutdown: every finalizer has
    returned, each of them without a failure. *)
Theorem stop_nil_means_clean
    (g : Group) (now : Z) (dr : Draw) (t : Z) (a : Stop) :
  result (stop g now dr) = Some (t, None) ->
  In a (stoppers g) ->
  exists d, a (WithTimeout Background now (stopTimeout (opts g))) now
            = Returns d None /\ now + Z.of_N d <= t.
Proof. apply stop_nil_clean. Qed.

Lemma stop_nil_means_clean_witness :
  exists d, ok_stop
              (WithTimeout Background 0 (stopTimeout (opts basic))) 0
            = Returns d None /\ 0 + Z.of_N d <= 0.
Proof.
  apply (stop_nil_means_clean basic 0 (draw 0 20) 0 ok_stop).
  - reflexivity.
  - left. reflexivity.
Defined.

End StopMore.

(* ------------------------------------------------------------------ *)
(** ** More properties of [Wait] *)

Module WaitMore.
Import Errors Chan Ctx run Derived Scenarios.
Import ErrorFacts SelectFacts SelectMore StopFacts StopShape RaceFacts WaitFacts.
Import StopMore.
Local Open Scope run_scope.

(** The derived start context is done by the start deadline. *)
Lemma Done_startCtx (g : Group) (ctx : Context) (now : Z) :
  exists x, Done (WithTimeout ctx now (startTimeout (opts g))) = Some x /\
            fst x <= start_deadline g now.
Proof.
  simpl. unfold start_deadline.
  destruct (Done ctx) as [p|]; simpl.
  - destruct (first_le (Z.max (now + startTimeout (opts g)) now, 0%nat)
                (fst p, S (snd p))) as [r [Hr [_ [H1 _]]]].
    exists r. split; [exact Hr | exact H1].
  - eexists. split; [reflexivity | simpl; lia].
Qed.

(** The [select] of [Wait] never blocks for ever: it resumes between the
    call and the start deadline, on a case whose channel is closed. *)
Lemma start_select (g : Group) (ctx : Context) (now : Z) (rnd : nat) :
  exists c t1,
    start_race g ctx now rnd = Some (c, t1) /\
    now <= t1 <= start_deadline g now /\
    match c with
    | CtxDone => exists cd, doneAt ctx = Some cd /\ cd <= t1
    | StartCtxDone => True
    | AllDone => exists d, allDone now (start_workers g now) = Some d /\ d <= t1
    end.
Proof.
  destruct (Done_startCtx g ctx now) as [x [Hx Hxle]].
  unfold start_race.
  set (cases := [(CtxDone, Done ctx);
                 (StartCtxDone, Done (WithTimeout ctx now (startTimeout (opts g))));
                 (AllDone, closed_at (allDone now (start_workers g now)))]).
  assert (Hin : In (StartCtxDone, Some x) cases)
    by (right; left; rewrite Hx; reflexivity).
  destruct (select_total now cases rnd _ _ Hin) as [c [t1 Hs]].
  exists c, t1. split; [exact Hs|].
  destruct (select_spec now cases rnd c t1 Hs) as [[y [Hy Hyt]] [Hge Hle]].
  split.
  - split; [exact Hge|]. specialize (Hle _ _ Hin).
    pose proof (Z.le_max_r (now + startTimeout (opts g)) now) as Hn.
    fold (start_deadline g now) in Hn. lia.
  - destruct Hy as [Hy|[Hy|[Hy|[]]]]; injection Hy as <- Hy.
    + exists (fst y). unfold doneAt. rewrite Hy. split; [reflexivity | exact Hyt].
    + exact I.
    + destruct (allDone now (start_workers g now)) as [d|]; [|discriminate].
      injection Hy as <-. exists d. split; [reflexivity | exact Hyt].
Qed.

(** What [Wait] does after each case of its [select]. *)
Lemma Wait_cases (g : Group) (ctx : Context) (now : Z) (s : Sched) :
  exists c t1,
    start_race g ctx now (pick (start_draw s)) = Some (c, t1) /\
    now <= t1 <= start_deadline g now /\
    match c with
    | CtxDone =>
        (exists cd, doneAt ctx = Some cd /\ cd <= t1) /\
        Wait g ctx now s = stop g t1 (stop_draw s)
    | StartCtxDone =>
        Wait g ctx now s =
          (' (t2, err) <- stop g t1 (stop_draw s) ;;
           ret (t2, Some (after_start_timeout (join (start_draw s)) err)))
    | AllDone =>
        (exists d, allDone now (start_workers g now) = Some d /\ d <= t1) /\
        match start_failures g now (start_draw s) with
        | [] => Wait g ctx now s =
                  (t3 <- recv (doneAt ctx) t1 ;; stop g t3 (stop_draw s))
        | _ => Wait g ctx now s =
                 (' (t3, stopErr) <- stop g t1 (stop_draw s) ;;
                  ret (t3, after_start_failures (join (start_draw s)) (start_failures g now (start_draw s)) stopErr))
        end
    end.
Proof.
  destruct (start_select g ctx now (pick (start_draw s))) as [c [t1 [Hs [Ht Hc]]]].
  exists c, t1. split; [exact Hs|]. split; [exact Ht|].
  destruct c.
  - split; [exact Hc|]. apply Wait_CtxDone. exact Hs.
  - apply Wait_StartCtxDone. exact Hs.
  - split; [exact Hc|]. destruct Hc as [d [Hd Hle]].
    destruct (start_failures g now (start_draw s)) as [|e es] eqn:Hf.
    + apply (Wait_AllDone_clean g ctx now s t1 d); assumption.
    + rewrite <- Hf.
      apply (Wait_AllDone_failed g ctx now s t1 d); try assumption.
      rewrite Hf. discriminate.
Qed.

Lemma is_after_start_timeout (addr : nat) (so : option error) (target : error) :
  Is so (Some target) = true ->
  is_ (after_start_timeout addr so) target = true.
Proof.
  destruct so as [e|]; cbn [Is after_start_timeout]; [|discriminate].
  intros He. apply (is_wrapped _ _ e); [right; left; reflexivity | exact He].
Qed.

Lemma is_after_start_failures (addr : nat) (fs : list error)
    (so : option error) (target : error) :
  Is so (Some target) = true ->
  Is (after_start_failures addr fs so) (Some target) = true.
Proof.
  destruct so as [e|]; cbn [Is]; [|discriminate].
  intros He. unfold after_start_failures. rewrite Join_Some.
  destruct (fs ++ [e]) as [|x l] eqn:E; [destruct fs; discriminate|].
  rewrite <- E. cbn [Is].
  apply (is_wrapped _ _ e); [apply in_or_app; right; left; reflexivity | exact He].
Qed.

(** Every way in which [Wait] returns. *)
Lemma Wait_returns_shape
    (g : Group) (ctx : Context) (now : Z) (s : Sched) (t : Z) (o : option error) :
  result (Wait g ctx now s) = Some (t, o) ->
  exists t1 so,
    now <= t1 /\
    calls (Wait g ctx now s) = [stop_call g t1] /\
    result (stop g t1 (stop_draw s)) = Some (t, so) /\
    ((o = so /\ exists cd, doneAt ctx = Some cd /\ cd <= t1) \/
     (o = Some (after_start_timeout (join (start_draw s)) so) /\ t1 <= start_deadline g now) \/
     (o = after_start_failures (join (start_draw s)) (start_failures g now (start_draw s)) so /\
      start_failures g now (start_draw s) <> [] /\
      allDone now (start_workers g now) <> None /\
      t1 <= start_deadline g now)).
Proof.
  intros Hres.
  destruct (Wait_cases g ctx now s) as [c [t1 [_ [Ht Hc]]]].
  destruct c.
  - destruct Hc as [Hcd HW]. rewrite HW in Hres |- *.
    exists t1, o. split; [lia|]. split; [apply stop_calls|].
    split; [exact Hres|]. left. split; [reflexivity | exact Hcd].
  - rewrite Hc in Hres |- *. rewrite result_bind in Hres.
    destruct (result (stop g t1 (stop_draw s))) as [[t2 so]|] eqn:Hst;
      [|discriminate].
    injection Hres as <- <-.
    exists t1, so. split; [lia|]. split.
    { rewrite calls_bind, stop_calls, Hst. reflexivity. }
    split; [exact Hst|]. right. left. split; [reflexivity | lia].
  - destruct Hc as [[d [Hd Hle]] HW].
    destruct (start_failures g now (start_draw s)) as [|e es] eqn:Hf.
    + rewrite HW in Hres |- *. unfold recv in *.
      destruct (doneAt ctx) as [cd|] eqn:Hcd; [|discriminate].
      cbn [option_map] in *. rewrite bind_lift_Some in *.
      exists (Z.max t1 cd), o. split; [lia|]. split; [apply stop_calls|].
      split; [exact Hres|]. left. split; [reflexivity|].
      exists cd. split; [reflexivity | lia].
    + rewrite HW in Hres |- *. rewrite result_bind in Hres.
      destruct (result (stop g t1 (stop_draw s))) as [[t2 so]|] eqn:Hst;
        [|discriminate].
      injection Hres as <- <-.
      exists t1, so. split; [lia|]. split.
      { rewrite calls_bind, stop_calls, Hst. reflexivity. }
      split; [exact Hst|]. right. right.
      split; [reflexivity|]. split; [discriminate|].
      split; [congruence | lia].
Qed.

(** X10. Every return of [Wait] has one of three forms.  [stop] was called
    once, at an instant [t1], [Wait] returns when [stop] does, and the
    Outcome is: the result of [stop] as it is, and then the caller's context
    was done when [stop] was called; or the start-timeout marker composed
    with the result of [stop], called no later than the start deadline; or
    the start failures, of which there is at least one, composed with the
    result of [stop], called no later than the start deadline.  In each
    form everything that [errors.Is] finds in the result of [stop] it finds
    in the Outcome: [Wait] drops nothing that [stop] reports. *)
Theorem Wait_outcome_forms
    (g : Group) (ctx : Context) (now : Z) (s : Sched) (t : Z) (o : option error) :
  result (Wait g ctx now s) = Some (t, o) ->
  exists t1 so,
    now <= t1 /\
    calls (Wait g ctx now s) = [stop_call g t1] /\
    result (stop g t1 (stop_draw s)) = Some (t, so) /\
    ((o = so /\ exists cd, doneAt ctx = Some cd /\ cd <= t1) \/
     (o = Some (after_start_timeout (join (start_draw s)) so) /\ t1 <= start_deadline g now) \/
     (o = after_start_failures (join (start_draw s)) (start_failures g now (start_draw s)) so /\
      start_failures g now (start_draw s) <> [] /\
      allDone now (start_workers g now) <> None /\
      t1 <= start_deadline g now)) /\
    forall target, Is so (Some target) = true -> Is o (Some target) = true.
Proof.
  intros Hres.
  destruct (Wait_returns_shape g ctx now s t o Hres)
    as [t1 [so [H1 [H2 [H3 H4]]]]].
  exists t1, so. repeat (split; [assumption|]).
  intros target Ht.
  destruct H4 as [[-> _]|[[-> _]|[-> _]]].
  - exact Ht.
  - apply is_after_start_timeout. exact Ht.
  - apply is_after_start_failures. exact Ht.
Qed.

Lemma Wait_outcome_forms_witness :
  exists t1 so,
    0 <= t1 /\
    calls (Wait stopError (WithTimeout Background 0 Second) 0 (draws 0 0))
    = [stop_call stopError t1] /\
    result (stop stopError t1 (stop_draw (draws 0 0))) = Some (0, so) /\
    ((Some (JoinError 21 [New 10 "start failed"; JoinError 20 [New 11 "stop failed"]])
      = so /\
      exists cd, doneAt (WithTimeout Background 0 Second) = Some cd /\ cd <= t1) \/
     (Some (JoinError 21 [New 10 "start failed"; JoinError 20 [New 11 "stop failed"]])
      = Some (after_start_timeout (join (start_draw (draws 0 0))) so) /\
      t1 <= start_deadline stopError 0) \/
     (Some (JoinError 21 [New 10 "start failed"; JoinError 20 [New 11 "stop failed"]])
      = after_start_failures (join (start_draw (draws 0 0)))
          (start_failures stopError 0 (start_draw (draws 0 0))) so /\
      start_failures stopError 0 (start_draw (draws 0 0)) <> [] /\
      allDone 0 (start_workers stopError 0) <> None /\
      t1 <= start_deadline stopError 0)) /\
    forall target,
      Is so (Some target) = true ->
      Is (Some (JoinError 21 [New 10 "start failed";
                              JoinError 20 [New 11 "stop failed"]]))
         (Some target) = true.
Proof.
  apply (Wait_outcome_forms stopError (WithTimeout Background 0 Second) 0
           (draws 0 0) 0).
  reflexivity.
Defined.

(** With finalizers that always return, [stop] always returns. *)
Lemma stop_total (g : Group) (now : Z) (dr : Draw) :
  stoppers_return g -> exists t o, result (stop g now dr) = Some (t, o).
Proof.
  intros Hret.
  destruct (allDone_returns now (stop_workers g now)) as [d Hd].
  { intros b Hin. unfold stop_workers in Hin.
    apply in_map_iff in Hin. destruct Hin as [a [<- Hin]].
    apply Hret. apply in_rev. exact Hin. }
  destruct (stop_returns g now dr d Hd) as [o Ho]. eauto.
Qed.

(** X11. [Wait] returns whenever the caller's context is done at some
    instant and no finalizer hangs, whatever the initializers do (fail,
    take long, or never return) and whatever the two timeouts are. *)
Theorem Wait_returns_once_ctx_done
    (g : Group) (ctx : Context) (now : Z) (s : Sched) (c : Z) :
  stoppers_return g ->
  doneAt ctx = Some c ->
  exists t o, result (Wait g ctx now s) = Some (t, o).
Proof.
  intros Hret Hc.
  destruct (Wait_cases g ctx now s) as [k [t1 [_ [_ Hk]]]].
  destruct k.
  - destruct Hk as [_ ->]. apply stop_total. exact Hret.
  - rewrite Hk, result_bind.
    destruct (stop_total g t1 (stop_draw s) Hret) as [t [o ->]].
    eexists _, _. reflexivity.
  - destruct Hk as [_ HW].
    destruct (start_failures g now (start_draw s)) as [|e es].
    + rewrite HW. unfold recv. rewrite Hc. cbn [option_map].
      rewrite bind_lift_Some. apply stop_total. exact Hret.
    + rewrite HW, result_bind.
      destruct (stop_total g t1 (stop_draw s) Hret) as [t [o ->]].
    eexists _, _. reflexivity.
Qed.

Lemma Wait_returns_once_ctx_done_witness :
  exists t o,
    result (Wait one_hanging_start (cancelled_at 7) 0
              (draws 0 0)) = Some (t, o).
Proof.
  apply (Wait_returns_once_ctx_done one_hanging_start (cancelled_at 7) 0
           (draws 0 0) 7).
  - intros a c t [<-|[]]. discriminate.
  - reflexivity.
Defined.

(** X12. An initializer that never returns does not block [Wait]: even if
    the caller's context is never done, [Wait] calls [stop] no later than the
    start deadline and, the finalizers returning, returns.  Its Outcome is
    the result of [stop], alone or behind the start-timeout marker; the
    failures that other initializers have posted are not reported. *)
Theorem Wait_with_hanging_initializer
    (g : Group) (ctx : Context) (now : Z) (s : Sched) :
  allDone now (start_workers g now) = None ->
  stoppers_return g ->
  exists t1 t so,
    now <= t1 <= start_deadline g now /\
    calls (Wait g ctx now s) = [stop_call g t1] /\
    result (stop g t1 (stop_draw s)) = Some (t, so) /\
    (result (Wait g ctx now s) = Some (t, so) \/
     result (Wait g ctx now s) = Some (t, Some (after_start_timeout (join (start_draw s)) so))).
Proof.
  intros Hhang Hret.
  destruct (Wait_cases g ctx now s) as [k [t1 [_ [Ht Hk]]]].
  destruct (stop_total g t1 (stop_draw s) Hret) as [t [so Hst]].
  destruct k.
  - destruct Hk as [_ HW]. exists t1, t, so. rewrite HW.
    split; [exact Ht|]. split; [apply stop_calls|].
    split; [exact Hst|]. left. exact Hst.
  - exists t1, t, so. rewrite Hk.
    split; [exact Ht|]. split.
    { rewrite calls_bind, stop_calls, Hst. reflexivity. }
    split; [exact Hst|]. right. rewrite result_bind, Hst. reflexivity.
  - destruct Hk as [[d [Hd _]] _]. congruence.
Qed.

Lemma Wait_with_hanging_initializer_witness :
  exists t1 t so,
    0 <= t1 <= start_deadline one_hanging_start 0 /\
    calls (Wait one_hanging_start Background 0 (draws 0 0))
    = [stop_call one_hanging_start t1] /\
    result (stop one_hanging_start t1 (stop_draw (draws 0 0))) = Some (t, so) /\
    (result (Wait one_hanging_start Background 0 (draws 0 0))
     = Some (t, so) \/
     result (Wait one_hanging_start Background 0 (draws 0 0))
     = Some (t, Some (after_start_timeout (join (start_draw (draws 0 0))) so))).
Proof.
  apply (Wait_with_hanging_initializer one_hanging_start Background 0
           (draws 0 0)).
  - reflexivity.
  - intros a c t [<-|[]]. discriminate.
Defined.

(** X13. A nil Outcome of [Wait] means that the caller asked for the
    shutdown and that it was clean: [stop] was called once, when the caller's
    context was done, and every finalizer returned success. *)
Theorem Wait_nil_means_clean_stop
    (g : Group) (ctx : Context) (now : Z) (s : Sched) (t : Z) :
  result (Wait g ctx now s) = Some (t, None) ->
  exists t1,
    calls (Wait g ctx now s) = [stop_call g t1] /\
    (exists cd, doneAt ctx = Some cd /\ cd <= t1) /\
    forall a, In a (stoppers g) ->
      exists d, a (WithTimeout Background t1 (stopTimeout (opts g))) t1
                = Returns d None /\ t1 + Z.of_N d <= t.
Proof.
  intros Hres.
  destruct (Wait_returns_shape g ctx now s t None Hres)
    as [t1 [so [_ [Hcalls [Hst Hform]]]]].
  exists t1. split; [exact Hcalls|].
  destruct Hform as [[<- Hcd]|[[Hn _]|[Hn [Hf _]]]].
  - split; [exact Hcd|]. intros a Ha.
    apply (stop_nil_clean g t1 (stop_draw s) t a Hst Ha).
  - discriminate.
  - exfalso. unfold after_start_failures in Hn. rewrite Join_Some in Hn.
    destruct (start_failures g now (start_draw s)) as [|e es]; [congruence | discriminate].
Qed.

Lemma Wait_nil_means_clean_stop_witness :
  exists t1,
    calls (Wait basic (cancelled_at 5) 0 (draws 0 0))
    = [stop_call basic t1] /\
    (exists cd, doneAt (cancelled_at 5) = Some cd /\ cd <= t1) /\
    forall a, In a (stoppers basic) ->
      exists d, a (WithTimeout Background t1 (stopTimeout (opts basic))) t1
                = Returns d None /\ t1 + Z.of_N d <= 5.
Proof.
  apply (Wait_nil_means_clean_stop basic (cancelled_at 5) 0
           (draws 0 0) 5).
  reflexivity.
Defined.

(** X14. When the caller's context is already done at the call of [Wait],
    the start-deadline case can be taken whatever the start timeout is:
    for some draw of the [select], and finalizers that return, [Wait]
    calls [stop] at once and returns an Outcome that carries the
    start-timeout marker, however far away the start deadline is. *)
Theorem start_marker_when_ctx_already_done
    (g : Group) (ctx : Context) (now c : Z) (s : Sched) :
  doneAt ctx = Some c ->
  c <= now ->
  stoppers_return g ->
  exists rnd t so,
    calls (Wait g ctx now (with_pick rnd s)) = [stop_call g now] /\
    result (Wait g ctx now (with_pick rnd s))
    = Some (t, Some (after_start_timeout (join (start_draw s)) so)) /\
    is_ (after_start_timeout (join (start_draw s)) so)
        ErrStartContextDeadlineExceeded = true.
Proof.
  intros Hc Hle Hret.
  destruct (WaitSpec.cancelled_ctx_readies_start_timeout g ctx now c Hc Hle)
    as [_ [rnd Hr]].
  destruct (stop_total g now (stop_draw s) Hret) as [t [so Hst]].
  exists rnd, t, so.
  rewrite (Wait_StartCtxDone g ctx now (with_pick rnd s) now Hr).
  cbn [with_pick stop_draw start_draw join]. split.
  { rewrite calls_bind, stop_calls, Hst. reflexivity. }
  split.
  - rewrite result_bind, Hst. reflexivity.
  - destruct so; reflexivity.
Qed.

Lemma start_marker_when_ctx_already_done_witness :
  exists rnd t so,
    calls (Wait basic (cancelled_at 0) 0 (with_pick rnd (draws 0 0)))
    = [stop_call basic 0] /\
    result (Wait basic (cancelled_at 0) 0 (with_pick rnd (draws 0 0)))
    = Some (t, Some (after_start_timeout (join (start_draw (draws 0 0))) so)) /\
    is_ (after_start_timeout (join (start_draw (draws 0 0))) so)
        ErrStartContextDeadlineExceeded = true.
Proof.
  apply (start_marker_when_ctx_already_done basic (cancelled_at 0) 0 0 (draws 0 0)).
  - reflexivity.
  - reflexivity.
  - intros a c t [<-|[]]. discriminate.
Defined.

Lemma append_assoc (a b c : string) :
  ((a ++ b) ++ c)%string = (a ++ (b ++ c))%string.
Proof. induction a as [|x a IH]; simpl; [reflexivity | rewrite IH; reflexivity]. Qed.

Lemma concat_app (sep : string) (l1 l2 : list string) :
  l1 <> [] -> l2 <> [] ->
  String.concat sep (l1 ++ l2)
  = (String.concat sep l1 ++ sep ++ String.concat sep l2)%string.
Proof.
  intros H1 H2. induction l1 as [|x [|y r] IH]; [congruence| |].
  - destruct l2; [congruence | reflexivity].
  - change (String.concat sep ((x :: y :: r) ++ l2))
      with (x ++ sep ++ String.concat sep ((y :: r) ++ l2))%string.
    rewrite IH by discriminate.
    change (String.concat sep (x :: y :: r))
      with (x ++ sep ++ String.concat sep (y :: r))%string.
    rewrite !append_assoc. reflexivity.
Qed.

Lemma Error_leaves_list (l : list error) :
  l <> [] ->
  Forall (fun e => well_formed e = true ->
                   leaves e <> [] /\
                   Error e = String.concat newline (map Error (leaves e))) l ->
  forallb well_formed l = true ->
  flat_map leaves l <> [] /\
  String.concat newline (map Error l)
  = String.concat newline (map Error (flat_map leaves l)).
Proof.
  intros Hne IH Hwf.
  induction l as [|x r IHr]; [congruence|].
  apply Forall_cons_iff in IH. destruct IH as [Hx Hr].
  simpl in Hwf. apply andb_true_iff in Hwf. destruct Hwf as [Hwx Hwr].
  destruct (Hx Hwx) as [Hlx Hex].
  destruct r as [|y r'].
  - simpl. rewrite app_nil_r. split; [exact Hlx | exact Hex].
  - destruct (IHr ltac:(discriminate) Hr Hwr) as [Hlr Her].
    split.
    + simpl. intros E. apply app_eq_nil in E. tauto.
    + change (flat_map leaves (x :: y :: r'))
        with (leaves x ++ flat_map leaves (y :: r')).
      rewrite map_app, concat_app.
      * rewrite <- Hex, <- Her. reflexivity.
      * intros E. apply map_eq_nil in E. tauto.
      * intros E. apply map_eq_nil in E. tauto.
Qed.

(** The text of a well-formed error is the messages of its constituent
    failures, one per line. *)
Lemma Error_leaves (e : error) :
  well_formed e = true ->
  leaves e <> [] /\ Error e = String.concat newline (map Error (leaves e)).
Proof.
  induction e as [a m|a errs IH] using error_rect'; intros Hwf.
  - split; [discriminate | reflexivity].
  - destruct errs as [|x r]; [discriminate|].
    apply (Error_leaves_list (x :: r)); [discriminate | exact IH | exact Hwf].
Qed.

Lemma start_failures_from (g : Group) (now : Z) (dr : Draw) (e : error) :
  In e (start_failures g now dr) ->
  exists a d, In a (starters g) /\ a now = Returns d (Some e).
Proof.
  unfold start_failures, start_workers. intros H.
  apply in_map_iff in H. destruct H as [[t e'] [<- H]].
  apply posts_from_workers in H. destruct H as [d H]. simpl in H.
  apply in_map_iff in H. destruct H as [a [Ha Hin]].
  exists a, d. split; [exact Hin | exact Ha].
Qed.

Lemma stop_outcome_well_formed (g : Group) (now : Z) (dr : Draw) t out :
  callables_well_formed g ->
  result (stop g now dr) = Some (t, Some out) ->
  well_formed out = true.
Proof.
  intros [_ Hwf] Hres. apply stop_shape in Hres.
  destruct Hres as [_ [pre [Hpre Ho]]]. rewrite Join_Some in Ho.
  destruct (pre ++ stop_failures g now dr) as [|x l] eqn:E; [discriminate|].
  injection Ho as ->. rewrite <- E.
  assert (Hall : forallb well_formed (pre ++ stop_failures g now dr) = true).
  { apply forallb_forall. intros e He. apply in_app_or in He.
    destruct He as [He|He].
    - destruct Hpre as [-> | ->]; [destruct He|].
      destruct He as [<-|[]]. reflexivity.
    - apply stop_failures_from in He. destruct He as [a [d [Ha Hr]]].
      exact (Hwf _ _ _ _ _ Ha Hr). }
  rewrite E in Hall |- *. exact Hall.
Qed.

(** X16. When the errors that the callables return are well formed (built
    by [errors.New] or by [errors.Join] of such errors), every Outcome that
    [Wait] returns is well formed, and its text is the messages of all its
    constituent failures, one per line, in the order in which they are
    nested: composites inside composites print as a flat list. *)
Theorem Wait_outcome_text
    (g : Group) (ctx : Context) (now : Z) (s : Sched) (t : Z) (out : error) :
  callables_well_formed g ->
  result (Wait g ctx now s) = Some (t, Some out) ->
  well_formed out = true /\
  Error out = String.concat newline (map Error (leaves out)).
Proof.
  intros Hwf Hres.
  assert (Hw : well_formed out = true).
  { destruct (Wait_returns_shape g ctx now s t (Some out) Hres)
      as [t1 [so [_ [_ [Hst Hform]]]]].
    assert (Hso : forall e, so = Some e -> well_formed e = true).
    { intros e ->. exact (stop_outcome_well_formed g t1 _ t e Hwf Hst). }
    destruct Hform as [[<- _]|[[Ho _]|[Ho [Hf _]]]].
    - apply Hso. reflexivity.
    - injection Ho as ->. destruct so as [e|]; [|reflexivity].
      simpl. rewrite (Hso e eq_refl). reflexivity.
    - unfold after_start_failures in Ho. rewrite Join_Some in Ho.
      destruct (start_failures g now (start_draw s) ++ _) as [|x l] eqn:E; [discriminate|].
      injection Ho as ->. rewrite <- E.
      assert (Hall : forallb well_formed
                (start_failures g now (start_draw s) ++
                 match so with Some e => [e] | None => [] end) = true).
      { apply forallb_forall. intros e He. apply in_app_or in He.
        destruct He as [He|He].
        - apply start_failures_from in He. destruct He as [a [d [Ha Hr]]].
          destruct Hwf as [Hs _]. exact (Hs _ _ _ _ Ha Hr).
        - destruct so as [e'|]; [|destruct He].
          destruct He as [<-|[]]. apply Hso. reflexivity. }
      rewrite E in Hall |- *. exact Hall. }
  split; [exact Hw | apply Error_leaves; exact Hw].
Qed.

Lemma Wait_outcome_text_witness :
  well_formed (JoinError 21 [New 10 "start failed";
                             JoinError 20 [New 11 "stop failed"]])
  = true /\
  Error (JoinError 21 [New 10 "start failed"; JoinError 20 [New 11 "stop failed"]])
  = String.concat newline
      (map Error (leaves (JoinError 21 [New 10 "start failed";
                                        JoinError 20 [New 11 "stop failed"]]))).
Proof.
  apply (Wait_outcome_text stopError (WithTimeout Background 0 Second) 0
           (draws 0 0) 0).
  - split.
    + intros a t d e [<-|[]] [= _ <-]. reflexivity.
    + intros a c t d e [<-|[]] [= _ <-]. reflexivity.
  - reflexivity.
Defined.

End WaitMore.

(* ------------------------------------------------------------------ *)
(** ** The deadline signal of the stop phase *)

Module StopDeadline.
Import Errors Chan Ctx run Derived Scenarios.
Import ErrorFacts SelectFacts SelectMore StopFacts StopShape RaceFacts WaitFacts.
Import StopMore WaitMore.
Local Open Scope run_scope.





(** The execution of the witness: the caller's context was done before the
    call, [stop] is called at once, and the finalizer, which waits for its
    context, returns 50 ms later, at the stop deadline; the deadline signal
    is ready by then, and [stop] reports it. *)
Example Wait_patient_stop :
  runs_until_done until_done_stop /\
  Wait patient_stop (cancelled_at (-5)) 0 (draws 0 0)
  = ([stop_call patient_stop 0],
     Some (50000000, Some (JoinError 20 [ErrStopContextDeadlineExceeded]))).
Proof.
  split; [|reflexivity].
  intros c t dl Hc. unfold until_done_stop. rewrite Hc.
  eexists _, _. split; [reflexivity | lia].
Qed.

End StopDeadline.
